(** * Workflow execution engine: validation, ordering and the execution driver

    A shallow embedding of [backend/app/services/workflow_executor.py]
    together with the schema it works on
    ([backend/app/schemas/workflow.py]).

    - Python values that the engine passes around (payloads, results, log
      entries) are an inductive type [pyval]; a [dict] whose iteration order
      is observed is an association list in insertion order, a [dict] or
      [set] that is only looked up is a [gmap] or [gset].
    - [async def] methods are awaited one at a time, so they are modelled as
      sequential computations in a state-and-exception monad [M].  The state
      holds the [ExecutionContext], the number of clock readings taken so
      far and the trace of calls made to the two external services.
    - The external services, the clock and the Python built-ins whose result
      is not fixed by the program text ([repr], [str] of non-strings, the
      iteration order of a [set]) are fields of the classes [PyRuntime] and
      [Capabilities]. *)

From Stdlib Require Import ZArith QArith Ascii.
From stdpp Require Import gmap strings list fin_maps pretty.

Set Warnings "-register-all,-clear-no-such-hyp".

(** ** Python values *)

Inductive pyval : Type :=
| PNone
| PBool (b : bool)
| PInt (n : Z)
| PFloat (x : Q)
| PStr (s : string)
| PList (items : list pyval)
| PDict (entries : list (string * pyval)).

(** A [Dict[str, Any]]: entries in insertion order, keys unique. *)
Abbreviation pydict := (list (string * pyval)).

(** [bool(v)] *)
Definition truthy (v : pyval) : bool :=
  match v with
  | PNone => false
  | PBool b => b
  | PInt n => negb (n =? 0)%Z
  | PFloat x => negb (Qeq_bool x 0)
  | PStr s => negb (bool_decide (s = ""))
  | PList items => negb (bool_decide (items = []))
  | PDict entries => negb (bool_decide (entries = []))
  end.

(** [type(v).__name__] *)
Definition type_name (v : pyval) : string :=
  match v with
  | PNone => "NoneType"
  | PBool _ => "bool"
  | PInt _ => "int"
  | PFloat _ => "float"
  | PStr _ => "str"
  | PList _ => "list"
  | PDict _ => "dict"
  end.

(** [d.get(k)]: [None] of the model stands for Python's [None] default. *)
Fixpoint dict_get (d : pydict) (k : string) : option pyval :=
  match d with
  | [] => None
  | (k', v) :: d' => if decide (k' = k) then Some v else dict_get d' k
  end.

(** [d.get(k, dflt)] *)
Definition dict_get_default (d : pydict) (k : string) (dflt : pyval) : pyval :=
  default dflt (dict_get d k).

(** [d[k] = v]: an existing key keeps its place, a new key goes last. *)
Fixpoint dict_set (d : pydict) (k : string) (v : pyval) : pydict :=
  match d with
  | [] => [(k, v)]
  | (k', v') :: d' =>
      if decide (k' = k) then (k, v) :: d' else (k', v') :: dict_set d' k v
  end.

(** [d.values()] *)
Definition dict_values (d : pydict) : list pyval := d.*2.

(** [v == s] for a string literal [s] *)
Definition eq_str (v : option pyval) (s : string) : bool :=
  match v with
  | Some (PStr s') => bool_decide (s' = s)
  | _ => false
  end.

(** [isinstance(result, dict) and result.get("type") == tag] *)
Definition has_type_tag (tag : string) (result : pyval) : bool :=
  match result with
  | PDict d => eq_str (dict_get d "type") tag
  | _ => false
  end.

(** ** Exceptions

    Every exception the engine can meet is a subclass of [Exception]: the
    ones it raises itself, the ones raised by attribute and item access,
    and whatever an external service raises. *)

Inductive exn : Type :=
| ValueError (msg : string)
| KeyError (key : string)
| AttributeError (msg : string)
| TypeError (msg : string)
| ServiceError (msg : string).

(** ** The schema: [app/schemas/workflow.py] *)

Record NodeData := {
  label : string;
  placeholder : option string;
  model : option string;
  collection : option string;
  topK : option Z;
  threshold : option Q;
  format : option string;
  streaming : option bool;
  use_web_search : option bool;
  webSearchResults : option Z
}.

(** [id], [type], [position] and [data] of the source; the two records of
    the schema that have an [id] get a prefix each. *)
Record WorkflowNode := {
  node_id : string;
  node_type : string;
  node_position : list (string * Q);
  node_data : NodeData
}.

Record WorkflowEdge := {
  edge_id : string;
  edge_source : string;
  edge_target : string;
  sourceHandle : option string;
  targetHandle : option string
}.

Record WorkflowValidation := {
  is_valid : bool;
  errors : list string;
  warnings : list string;
  execution_order : list string
}.

Definition opt_str (o : option string) : pyval :=
  match o with Some s => PStr s | None => PNone end.
Definition opt_int (o : option Z) : pyval :=
  match o with Some n => PInt n | None => PNone end.
Definition opt_float (o : option Q) : pyval :=
  match o with Some x => PFloat x | None => PNone end.
Definition opt_bool (o : option bool) : pyval :=
  match o with Some b => PBool b | None => PNone end.

(** Attribute access on a [NodeData] instance by name.  The instance has
    the declared fields as its data attributes and no others (pydantic drops
    undeclared keys when it builds the object), so any other name has no
    value; the methods of the base class are not modelled, the engine reads
    data attributes only. *)
Definition NodeData_attr (d : NodeData) (name : string) : option pyval :=
  if decide (name = "label") then Some (PStr (label d))
  else if decide (name = "placeholder") then Some (opt_str (placeholder d))
  else if decide (name = "model") then Some (opt_str (model d))
  else if decide (name = "collection") then Some (opt_str (collection d))
  else if decide (name = "topK") then Some (opt_int (topK d))
  else if decide (name = "threshold") then Some (opt_float (threshold d))
  else if decide (name = "format") then Some (opt_str (format d))
  else if decide (name = "streaming") then Some (opt_bool (streaming d))
  else if decide (name = "use_web_search") then Some (opt_bool (use_web_search d))
  else if decide (name = "webSearchResults") then Some (opt_int (webSearchResults d))
  else None.

(** [class ComponentType(Enum)], by value *)
Definition USER_QUERY : string := "input".
Definition KNOWLEDGE_BASE : string := "knowledge".
Definition LLM_ENGINE : string := "llm".
Definition OUTPUT : string := "output".

(** ** What the program text does not fix *)

Class PyRuntime := {
  (** [repr(s)] of a string, as [str(KeyError(s))] shows it *)
  py_repr : string -> string;
  (** [str(v)] of a value that is not a string *)
  py_str_other : pyval -> string;
  (** the order in which a [set] of strings is iterated *)
  set_iter : gset string -> list string;
  set_iter_perm : forall s, set_iter s ≡ₚ elements s;
  (** the successive readings of [time.time()], in seconds *)
  time_time : nat -> Q
}.

(** [str(v)], as an f-string formats a value *)
Definition py_str `{PyRuntime} (v : pyval) : string :=
  match v with
  | PStr s => s
  | _ => py_str_other v
  end.

(** [str(e)] *)
Definition exn_str `{PyRuntime} (e : exn) : string :=
  match e with
  | ValueError msg => msg
  | KeyError key => py_repr key
  | AttributeError msg => msg
  | TypeError msg => msg
  | ServiceError msg => msg
  end.

(** [n or dflt] on optional fields *)
Definition str_or (o : option string) (dflt : string) : string :=
  match o with
  | Some s => if decide (s = "") then dflt else s
  | None => dflt
  end.
Definition int_or (o : option Z) (dflt : Z) : Z :=
  match o with
  | Some n => if decide (n = 0%Z) then dflt else n
  | None => dflt
  end.

(** ** Execution order: [_determine_execution_order] *)

(** The adjacency list: one empty list per node id, then each edge whose
    source is a key appends its target. *)
Definition build_graph (nodes : list WorkflowNode) (edges : list WorkflowEdge)
  : gmap string (list string) :=
  foldl (fun graph edge =>
           match graph !! edge_source edge with
           | Some targets => <[edge_source edge := targets ++ [edge_target edge]]> graph
           | None => graph
           end)
        (foldl (fun graph node => <[node_id node := []]> graph) ∅ nodes)
        edges.

(** The [while queue:] loop.  [fuel] bounds the number of iterations; the
    loop needs at most one iteration per element ever put on the queue
    (see [bfs_fuel_enough]). *)
Fixpoint bfs (fuel : nat) (graph : gmap string (list string))
  (visited : gset string) (order queue : list string)
  : option (gset string * list string) :=
  match queue with
  | [] => Some (visited, order)
  | current_node :: queue =>
      match fuel with
      | O => None
      | S fuel =>
          if decide (current_node ∈ visited) then bfs fuel graph visited order queue
          else
            let visited := visited ∪ {[current_node]} in
            let order := order ++ [current_node] in
            let neighbors := default [] (graph !! current_node) in
            bfs fuel graph visited order
              (queue ++ filter (fun neighbor => neighbor ∉ visited) neighbors)
      end
  end.

Definition _determine_execution_order
  (nodes : list WorkflowNode) (edges : list WorkflowEdge) : list string :=
  let graph := build_graph nodes edges in
  match find (fun node => bool_decide (node_type node = USER_QUERY)) nodes with
  | None => []
  | Some input_node =>
      match bfs (S (length edges)) graph ∅ [] [node_id input_node] with
      | Some (visited, order) =>
          order ++ (node_id <$> filter (fun node => node_id node ∉ visited) nodes)
      | None => [] (* out of fuel: does not happen, see [bfs_fuel_enough] *)
      end
  end.

(** ** Validation: [_validate_node_config] and [validate_workflow] *)

Definition _validate_node_config (node : WorkflowNode) : list string :=
  if decide (node_type node = LLM_ENGINE) then
    if truthy (opt_str (model (node_data node))) then []
    else ["LLM Engine node " +:+ node_id node +:+ ": Model is required"]
  else if decide (node_type node = KNOWLEDGE_BASE) then
    (if truthy (opt_str (collection (node_data node))) then []
     else ["Knowledge Base node " +:+ node_id node +:+ ": Collection name is required"])
    ++
    (match topK (node_data node) with
     | Some k =>
         if decide (k < 1 \/ k > 50)%Z
         then ["Knowledge Base node " +:+ node_id node +:+ ": TopK must be between 1 and 50"]
         else []
     | None => []
     end)
  else [].

Definition required_types : gset string :=
  {[ USER_QUERY; LLM_ENGINE; OUTPUT ]}.

(** The three structural checks that precede the ordering step. *)
Definition structural_errors `{PyRuntime} (nodes : list WorkflowNode) : list string :=
  let node_types : gset string := list_to_set (node_type <$> nodes) in
  let input_nodes := filter (fun node => node_type node = USER_QUERY) nodes in
  let output_nodes := filter (fun node => node_type node = OUTPUT) nodes in
  (if decide (required_types ⊆ node_types) then []
   else ["Missing required components: "
           +:+ String.concat ", " (set_iter (required_types ∖ node_types))])
  ++ (if decide (1 < length input_nodes) then ["Only one User Query component is allowed"] else [])
  ++ (if decide (1 < length output_nodes) then ["Only one Output component is allowed"] else []).

(** No statement of the [try] block can raise on values of the declared
    types, so the [except] branch of the source is not reachable and the
    block is modelled directly. *)
Definition validate_workflow `{PyRuntime}
  (nodes : list WorkflowNode) (edges : list WorkflowEdge) : WorkflowValidation :=
  let errors := structural_errors nodes in
  let '(execution_order, errors) :=
    match errors with
    | [] =>
        let execution_order := _determine_execution_order nodes edges in
        (execution_order,
         match execution_order with
         | [] => errors ++ ["Invalid workflow connections - cannot determine execution order"]
         | _ => errors
         end)
    | _ => ([], errors)
    end in
  let errors := errors ++ mjoin (_validate_node_config <$> nodes) in
  {| is_valid := bool_decide (length errors = 0);
     errors := errors;
     warnings := [];
     execution_order := execution_order |}.

(** ** The execution context and the monad of the driver *)

Record ExecutionContext := {
  input_data : pydict;
  intermediate_results : pydict;
  execution_log : list pyval;
  start_time : Q
}.

(** A call made to an external service, with the arguments it received. *)
Inductive call : Type :=
| CallSearch (query : pyval) (collection_name : string) (top_k : Z) (threshold : Q)
| CallGenerate (query : pyval) (context : string) (model : string)
    (max_tokens : pyval) (use_web_search : pyval).

(** [VectorService.search] and [LLMService.generate_response] as the engine
    sees them: given the calls made so far and the arguments, a value or an
    exception. *)
Class Capabilities := {
  vector_service_search :
    list call -> pyval -> string -> Z -> Q -> exn + list pydict;
  llm_service_generate_response :
    list call -> pyval -> string -> string -> pyval -> pyval -> exn + string
}.

Record world := {
  context : ExecutionContext;
  clock_reads : nat;
  calls : list call
}.

Definition M (A : Type) : Type := world -> (exn + A) * world.

#[global] Instance M_ret : MRet M := fun A a w => (inr a, w).
#[global] Instance M_bind : MBind M := fun A B k m w =>
  match m w with
  | (inr a, w') => k a w'
  | (inl e, w') => (inl e, w')
  end.

Definition raise {A : Type} (e : exn) : M A := fun w => (inl e, w).

Definition get_context : M ExecutionContext := fun w => (inr (context w), w).

(** [time.time()] *)
Definition now `{PyRuntime} : M Q := fun w =>
  (inr (time_time (clock_reads w)),
   {| context := context w; clock_reads := S (clock_reads w); calls := calls w |}).

(** [context.intermediate_results[node_id] = result] *)
Definition set_result (node_id : string) (result : pyval) : M unit := fun w =>
  let c := context w in
  (inr tt,
   {| context := {| input_data := input_data c;
                    intermediate_results := dict_set (intermediate_results c) node_id result;
                    execution_log := execution_log c;
                    start_time := start_time c |};
      clock_reads := clock_reads w; calls := calls w |}).

(** [context.execution_log.append(step)] *)
Definition append_log (step : pyval) : M unit := fun w =>
  let c := context w in
  (inr tt,
   {| context := {| input_data := input_data c;
                    intermediate_results := intermediate_results c;
                    execution_log := execution_log c ++ [step];
                    start_time := start_time c |};
      clock_reads := clock_reads w; calls := calls w |}).

Definition record_call (c : call) (w : world) : world :=
  {| context := context w; clock_reads := clock_reads w; calls := calls w ++ [c] |}.

(** [await self.vector_service.search(...)] *)
Definition search `{Capabilities}
  (query : pyval) (collection_name : string) (top_k : Z) (threshold : Q)
  : M (list pydict) := fun w =>
  (vector_service_search (calls w) query collection_name top_k threshold,
   record_call (CallSearch query collection_name top_k threshold) w).

(** [await self.llm_service.generate_response(...)] *)
Definition generate_response `{Capabilities}
  (query : pyval) (context : string) (model : string) (max_tokens use_web_search : pyval)
  : M string := fun w =>
  (llm_service_generate_response (calls w) query context model max_tokens use_web_search,
   record_call (CallGenerate query context model max_tokens use_web_search) w).

(** [d[k]] *)
Definition getitem (d : pydict) (k : string) : M pyval :=
  match dict_get d k with
  | Some v => mret v
  | None => raise (KeyError k)
  end.

(** [node.data.<name>] for a name that the schema may or may not declare *)
Definition getattr (d : NodeData) (name : string) : M pyval :=
  match NodeData_attr d name with
  | Some v => mret v
  | None => raise (AttributeError ("'NodeData' object has no attribute '" +:+ name +:+ "'"))
  end.

(** [for x in v]; a string yields its characters, one string each. *)
Definition py_iter (v : pyval) : M (list pyval) :=
  match v with
  | PList items => mret items
  | PDict entries => mret (PStr <$> entries.*1)
  | PStr s => mret ((fun c => PStr (String c "")) <$> String.list_ascii_of_string s)
  | _ => raise (TypeError ("'" +:+ type_name v +:+ "' object is not iterable"))
  end.

(** [doc.get(k, dflt)] on a value that is expected to be a dict *)
Definition doc_get (doc : pyval) (k : string) (dflt : pyval) : M pyval :=
  match doc with
  | PDict d => mret (dict_get_default d k dflt)
  | _ => raise (AttributeError ("'" +:+ type_name doc +:+ "' object has no attribute 'get'"))
  end.

(** [for x in xs: ...] with a body that may raise *)
Fixpoint mapM {A B : Type} (f : A -> M B) (xs : list A) : M (list B) :=
  match xs with
  | [] => mret []
  | x :: xs => y ← f x; ys ← mapM f xs; mret (y :: ys)
  end.

(** The first value that is a dict tagged [tag]: the [for ... break] scan. *)
Fixpoint first_tagged (tag : string) (values : list pyval) : option pydict :=
  match values with
  | [] => None
  | PDict d :: values =>
      if eq_str (dict_get d "type") tag then Some d else first_tagged tag values
  | _ :: values => first_tagged tag values
  end.

(** [not d] for a variable that holds [None] or a dict *)
Definition is_falsy (o : option pydict) : bool :=
  match o with
  | None => true
  | Some d => negb (truthy (PDict d))
  end.

Definition newline : string := String "010"%char "".

(** ** The four components *)

Section components.
Context `{PyRuntime} `{Capabilities}.

Definition _execute_user_query (node : WorkflowNode) : M pyval :=
  context ← get_context;
  let query := dict_get_default (input_data context) "query" (PStr "") in
  if negb (truthy query) then raise (ValueError "No query provided")
  else mret (PDict [("query", query); ("type", PStr "user_query")]).

(** The fallback shared by the knowledge and llm components:
    [if not query_data and context.input_data.get("query"): ...] *)
Definition query_fallback (context : ExecutionContext) (query_data : option pydict)
  : M (option pydict) :=
  if is_falsy query_data
     && truthy (dict_get_default (input_data context) "query" PNone)
  then
    query ← getitem (input_data context) "query";
    mret (Some [("type", PStr "user_query"); ("query", query)])
  else mret query_data.

Definition _execute_knowledge_base (node : WorkflowNode) : M pyval :=
  context ← get_context;
  let query_data :=
    first_tagged "user_query" (dict_values (intermediate_results context)) in
  query_data ← query_fallback context query_data;
  match query_data with
  | Some query_data =>
      if is_falsy (Some query_data) then
        mret (PDict [("type", PStr "knowledge_base"); ("results", PList []);
                     ("query", PNone); ("status", PStr "skipped")])
      else
        let threshold := (3 # 10)%Q in
        query ← getitem query_data "query";
        search_results ←
          search query
            (str_or (collection (node_data node)) "default")
            (int_or (topK (node_data node)) 5)
            threshold;
        query ← getitem query_data "query";
        mret (PDict [("query", query);
                     ("results", PList (PDict <$> search_results));
                     ("type", PStr "knowledge_base")])
  | None =>
      mret (PDict [("type", PStr "knowledge_base"); ("results", PList []);
                   ("query", PNone); ("status", PStr "skipped")])
  end.

(** The scan of the llm component has no [break]: the last match of each
    tag wins. *)
Definition scan_query_and_knowledge (values : list pyval)
  : option pydict * option pydict :=
  foldl (fun '(query_data, knowledge_data) result =>
           match result with
           | PDict d =>
               if eq_str (dict_get d "type") "user_query" then (Some d, knowledge_data)
               else if eq_str (dict_get d "type") "knowledge_base" then (query_data, Some d)
               else (query_data, knowledge_data)
           | _ => (query_data, knowledge_data)
           end)
        (None, None) values.

Definition format_document (doc : pyval) : M string :=
  filename ← doc_get doc "filename" (PStr "Unknown");
  content ← doc_get doc "content" (PStr "");
  mret ("Document: " +:+ py_str filename +:+ newline +:+ "Content: " +:+ py_str content).

Definition _execute_llm_engine (node : WorkflowNode) : M pyval :=
  context ← get_context;
  let '(query_data, knowledge_data) :=
    scan_query_and_knowledge (dict_values (intermediate_results context)) in
  query_data ← query_fallback context query_data;
  match query_data with
  | Some query_data =>
      if is_falsy (Some query_data) then raise (ValueError "No query found for LLM processing")
      else
        context_text ←
          match knowledge_data with
          | Some knowledge_data =>
              if truthy (PDict knowledge_data)
                 && truthy (dict_get_default knowledge_data "results" PNone)
              then
                results ← getitem knowledge_data "results";
                docs ← py_iter results;
                parts ← mapM format_document docs;
                mret (String.concat newline parts)
              else mret ""
          | None => mret ""
          end;
        let use_web_search :=
          default (PBool false) (NodeData_attr (node_data node) "use_web_search") in
        let model := "gpt-5-nano-2025-08-07" in
        query ← getitem query_data "query";
        max_tokens ← getattr (node_data node) "maxTokens";
        let max_tokens := if truthy max_tokens then max_tokens else PInt 1000 in
        response ← generate_response query context_text model max_tokens use_web_search;
        query ← getitem query_data "query";
        mret (PDict [("query", query);
                     ("response", PStr response);
                     ("context_used", PBool (truthy (PStr context_text)));
                     ("web_search_used", use_web_search);
                     ("type", PStr "llm_response")])
  | None => raise (ValueError "No query found for LLM processing")
  end.

Definition _execute_output (node : WorkflowNode) : M pyval :=
  context ← get_context;
  let llm_response :=
    first_tagged "llm_response" (dict_values (intermediate_results context)) in
  match llm_response with
  | Some llm_response =>
      if is_falsy (Some llm_response) then raise (ValueError "No LLM response found for output")
      else
        let output_format := str_or (format (node_data node)) "text" in
        if decide (output_format = "json") then
          response ← getitem llm_response "response";
          query ← getitem llm_response "query";
          context_used ← getitem llm_response "context_used";
          mret (PDict [("response", response);
                       ("metadata", PDict [("query", query);
                                           ("context_used", context_used);
                                           ("format", PStr "json")]);
                       ("type", PStr "output")])
        else
          response ← getitem llm_response "response";
          mret (PDict [("response", response); ("type", PStr "output")])
  | None => raise (ValueError "No LLM response found for output")
  end.

(** The [try: ... except Exception: raise] of the source only logs. *)
Definition _execute_component (node : WorkflowNode) : M pyval :=
  if decide (node_type node = USER_QUERY) then _execute_user_query node
  else if decide (node_type node = KNOWLEDGE_BASE) then _execute_knowledge_base node
  else if decide (node_type node = LLM_ENGINE) then _execute_llm_engine node
  else if decide (node_type node = OUTPUT) then _execute_output node
  else raise (ValueError ("Unknown component type: " +:+ node_type node)).

End components.

(** ** The driver: [execute_workflow] *)

(** What a call of a Python function can do: return a value or let an
    exception reach its caller. *)
Inductive outcome (A : Type) : Type :=
| Returned (a : A)
| Raised (e : exn).
Arguments Returned {A} a.
Arguments Raised {A} e.

(** [int(x)]: truncation towards zero.  Clock readings are rationals; the
    rounding of binary floating point is not modelled. *)
Definition int_of_float (x : Q) : Z := Z.quot (Qnum x) (Z.pos (Qden x)).

(** [int((t - start_time) * 1000)] *)
Definition millis (t start_time : Q) : Z :=
  int_of_float ((t - start_time) * (1000 # 1))%Q.

Section driver.
Context `{PyRuntime} `{Capabilities}.

(** [node_map = {node.id: node for node in nodes}] *)
Definition make_node_map (nodes : list WorkflowNode) : gmap string WorkflowNode :=
  foldl (fun node_map node => <[node_id node := node]> node_map) ∅ nodes.

(** [node = node_map[node_id]] *)
Definition lookup_node (node_map : gmap string WorkflowNode) (node_id : string)
  : M WorkflowNode :=
  match node_map !! node_id with
  | Some node => mret node
  | None => raise (KeyError node_id)
  end.

(** One iteration of [for node_id in execution_order:] *)
Definition execute_step (node_map : gmap string WorkflowNode) (start_time : Q)
  (node_id : string) : M unit :=
  node ← lookup_node node_map node_id;
  result ← _execute_component node;
  set_result node_id result;;
  t ← now;
  append_log (PDict [("node_id", PStr node_id);
                     ("node_type", PStr (node_type node));
                     ("result", result);
                     ("timestamp", PFloat (t - start_time)%Q)]).

Fixpoint execute_steps (node_map : gmap string WorkflowNode) (start_time : Q)
  (execution_order : list string) : M unit :=
  match execution_order with
  | [] => mret tt
  | node_id :: execution_order =>
      execute_step node_map start_time node_id;;
      execute_steps node_map start_time execution_order
  end.

(** The body of the [try:] block. *)
Definition execute_body (nodes : list WorkflowNode) (edges : list WorkflowEdge)
  (start_time : Q) : M pyval :=
  let validation := validate_workflow nodes edges in
  if negb (is_valid validation) then
    raise (ValueError ("Invalid workflow: " +:+ String.concat ", " (errors validation)))
  else
    let node_map := make_node_map nodes in
    execute_steps node_map start_time (execution_order validation);;
    t ← now;
    let total_time := millis t start_time in
    context ← get_context;
    mret (PDict [("output", PDict (intermediate_results context));
                 ("execution_log",
                  PDict [("steps", PList (execution_log context));
                         ("total_steps", PInt (Z.of_nat (length (execution_log context))));
                         ("execution_time", PInt total_time)]);
                 ("execution_time", PInt total_time);
                 ("status", PStr "completed")]).

(** The state in which the [try:] block is entered: the clock has been
    read once and the context is fresh. *)
Definition initial_world (input_data : pydict) : world :=
  {| context := {| input_data := input_data;
                   intermediate_results := [];
                   execution_log := [];
                   start_time := time_time 0 |};
     clock_reads := 1;
     calls := [] |}.

(** The dict built by the [except Exception as e:] handler. *)
Definition failed_result (e : exn) (w : world) : pyval :=
  let context := context w in
  PDict [("error", PStr (exn_str e));
         ("execution_log",
          PDict [("steps", PList (execution_log context));
                 ("total_steps", PInt (Z.of_nat (length (execution_log context))));
                 ("error", PStr (exn_str e))]);
         ("execution_time",
          PInt (millis (time_time (clock_reads w)) (start_time context)));
         ("status", PStr "failed")].

(** [execute_workflow], together with the state it leaves behind (the
    trace of service calls is what an observer of the services sees). *)
Definition execute_workflow_traced
  (nodes : list WorkflowNode) (edges : list WorkflowEdge) (input_data : pydict)
  : outcome pyval * world :=
  let w := initial_world input_data in
  match execute_body nodes edges (start_time (context w)) w with
  | (inr result, w') => (Returned result, w')
  | (inl e, w') => (Returned (failed_result e w'), w')
  end.

Definition execute_workflow
  (nodes : list WorkflowNode) (edges : list WorkflowEdge) (input_data : pydict)
  : outcome pyval :=
  (execute_workflow_traced nodes edges input_data).1.

End driver.

(** ** A concrete runtime, for evaluating the engine on examples *)

(** [repr] of a string without quotes, backslashes or control characters. *)
Definition simple_repr (s : string) : string := "'" +:+ s +:+ "'".

#[local] Instance example_runtime : PyRuntime := {|
  py_repr := simple_repr;
  py_str_other := fun _ => "?";
  set_iter := elements;
  set_iter_perm := fun _ => reflexivity _;
  time_time := fun n => (Z.of_nat n # 1000)%Q
|}.

(** Services that find no document and answer every prompt with ["ok"]. *)
#[local] Instance example_services : Capabilities := {|
  vector_service_search := fun _ _ _ _ _ => inr [];
  llm_service_generate_response := fun _ _ _ _ _ _ => inr "ok"
|}.

Definition mk_data (model collection format : option string) (topK : option Z) : NodeData :=
  {| label := ""; placeholder := None; model := model; collection := collection;
     topK := topK; threshold := Some (7 # 10)%Q; format := format;
     streaming := Some true; use_web_search := Some false;
     webSearchResults := Some 10%Z |}.

Definition mk_node (id type : string) (data : NodeData) : WorkflowNode :=
  {| node_id := id; node_type := type; node_position := []; node_data := data |}.

Definition mk_edge (source target : string) : WorkflowEdge :=
  {| edge_id := source +:+ "-" +:+ target; edge_source := source; edge_target := target;
     sourceHandle := None; targetHandle := None |}.

Definition chain_nodes : list WorkflowNode :=
  [ mk_node "input-id" "input" (mk_data None None None (Some 5%Z));
    mk_node "knowledge-id" "knowledge" (mk_data None (Some "docs") None (Some 5%Z));
    mk_node "llm-id" "llm" (mk_data (Some "gpt") None None (Some 5%Z));
    mk_node "output-id" "output" (mk_data None None (Some "text") (Some 5%Z)) ].

Definition chain_edges : list WorkflowEdge :=
  [ mk_edge "input-id" "knowledge-id";
    mk_edge "knowledge-id" "llm-id";
    mk_edge "llm-id" "output-id" ].

(** * The reply of the chat route: [send_message] in [app/api/routes/chat.py]

    The part of the route that turns the result of [execute_workflow] into
    the text of the reply (lines 148-162). *)

(** The loop over [result["output"].items()]: the response of the first
    entry tagged llm_response or output, whichever comes first. *)
Fixpoint first_response (items : pydict) (ai_response : pyval) : pyval :=
  match items with
  | [] => ai_response
  | (node_id, output) :: items =>
      match output with
      | PDict d =>
          if eq_str (dict_get d "type") "llm_response"
          then dict_get_default d "response" ai_response
          else if eq_str (dict_get d "type") "output"
               then dict_get_default d "response" ai_response
               else first_response items ai_response
      | _ => first_response items ai_response
      end
  end.

Definition ai_response `{PyRuntime} (result : pydict) : exn + pyval :=
  let ai_response := PStr "Sorry, I couldn't process your request." in
  if eq_str (dict_get result "status") "completed"
     && truthy (dict_get_default result "output" PNone)
  then
    match dict_get result "output" with
    | Some (PDict items) => inr (first_response items ai_response)
    | Some v => inl (AttributeError ("'" +:+ type_name v +:+ "' object has no attribute 'items'"))
    | None => inl (KeyError "output")
    end
  else
    inr (PStr ("Workflow execution failed: "
               +:+ py_str (dict_get_default result "error" (PStr "Unknown error")))).

(** * Document chunking: [app/services/document_service.py]

    [_split_into_sentences] and [_create_chunks].  A Python [str] is the
    list of its code points here, so that [len] and slicing count
    characters.  Which characters [str.strip] removes is a table of the
    interpreter: it is the field of [PyText]. *)

Abbreviation str := (list N).

Class PyText := {
  (** [c.isspace()] for a character [c] *)
  isspace : N -> bool
}.

(** The code points of a string literal of the source. *)
Definition codes (s : string) : str := N_of_ascii <$> String.list_ascii_of_string s.

(** [c in ".!?"] *)
Definition is_terminator (c : N) : bool :=
  bool_decide (c = 46%N) || bool_decide (c = 33%N) || bool_decide (c = 63%N).

(** [re.split(r'[.!?]+', text)]: the pieces between the maximal runs of
    terminators, an empty piece where the text starts or ends with a run.
    [piece] is the piece being read and [in_run] tells that the previous
    character was a terminator. *)
Fixpoint re_split (text : str) (piece : str) (in_run : bool) : list str :=
  match text with
  | [] => [piece]
  | c :: text =>
      if is_terminator c then
        if in_run then re_split text [] true
        else piece :: re_split text [] true
      else re_split text (piece ++ [c]) false
  end.

Fixpoint drop_while {A : Type} (f : A -> bool) (l : list A) : list A :=
  match l with
  | [] => []
  | x :: l' => if f x then drop_while f l' else l
  end.

Section text.
Context `{PyText}.

(** [s.lstrip()], [s.rstrip()] and [s.strip()] *)
Definition lstrip (s : str) : str := drop_while isspace s.
Definition rstrip (s : str) : str := reverse (drop_while isspace (reverse s)).
Definition strip (s : str) : str := rstrip (lstrip s).

Definition _split_into_sentences (text : str) : list str :=
  let sentences := re_split text [] false in
  strip <$> filter (fun s => strip s <> []) sentences.

End text.

Record chunk_metadata := {
  filename : str;
  chunk_id : nat;
  chunk_size : nat
}.

(** A chunk: the keys ["id"], ["content"] and ["metadata"] of the source. *)
Record chunk := {
  chunk_key : str;
  content : str;
  metadata : chunk_metadata
}.

Section chunks.
Context `{PyText}.

(** The dict appended to [chunks], for the current chunk and its number:
    [f"{filename}_{chunk_id}"], the stripped text, and the metadata with the
    length of the text before stripping. *)
Definition make_chunk (filename current_chunk : str) (chunk_id : nat) : chunk :=
  {| chunk_key := filename ++ codes "_" ++ codes (pretty chunk_id);
     content := strip current_chunk;
     metadata := {| filename := filename;
                    chunk_id := chunk_id;
                    chunk_size := length current_chunk |} |}.

(** The [for sentence in sentences:] loop, with [chunk_size = 1000] and
    [overlap = 200]. *)
Fixpoint chunk_sentences (filename : str) (sentences : list str)
  (chunks : list chunk) (current_chunk : str) (chunk_id : nat)
  : list chunk * str * nat :=
  match sentences with
  | [] => (chunks, current_chunk, chunk_id)
  | sentence :: sentences =>
      if bool_decide (1000 < length current_chunk + length sentence)
         && negb (bool_decide (current_chunk = []))
      then
        chunk_sentences filename sentences
          (chunks ++ [make_chunk filename current_chunk chunk_id])
          (drop (length current_chunk - 200) current_chunk ++ codes " " ++ sentence)
          (S chunk_id)
      else
        chunk_sentences filename sentences chunks
          (current_chunk ++ codes " " ++ sentence) chunk_id
  end.

Definition _create_chunks (content filename : str) : list chunk :=
  let sentences := _split_into_sentences content in
  let '(chunks, current_chunk, chunk_id) :=
    chunk_sentences filename sentences [] [] 0 in
  if bool_decide (strip current_chunk = []) then chunks
  else chunks ++ [make_chunk filename current_chunk chunk_id].

End chunks.

(** ** [process_document] and [_store_embeddings]

    Text extraction reads the file system and the vector store is a remote
    service: both are parameters, the store with a state of its own. *)

Section document_processing.
Context `{PyRuntime} `{PyText}.
Variable store : Type.
Variable _extract_text : str -> exn + str.
Variable create_collection : str -> store -> (exn + bool) * store.
Variable add_documents :
  str -> list str -> list chunk_metadata -> list str -> store -> (exn + bool) * store.

Definition _store_embeddings (chunks : list chunk) (collection_name filename : str)
  (s : store) : bool * store :=
  match create_collection collection_name s with
  | (inl e, s) => (false, s)
  | (inr _, s) =>
      let documents := content <$> chunks in
      let metadatas := metadata <$> chunks in
      let ids := chunk_key <$> chunks in
      match add_documents collection_name documents metadatas ids s with
      | (inl e, s) => (false, s)
      | (inr success, s) => (success, s)
      end
  end.

Definition process_document (file_path filename collection_name : str) (s : store)
  : pyval * store :=
  let error e := PDict [("status", PStr "error"); ("error_message", PStr (exn_str e))] in
  match _extract_text file_path with
  | inl e => (error e, s)
  | inr content =>
      if bool_decide (content = [])
      then (error (ValueError "Could not extract text from document"), s)
      else
        let chunks := _create_chunks content filename in
        let '(_, s) := _store_embeddings chunks collection_name filename s in
        (PDict [("status", PStr "success");
                ("chunks_created", PInt (Z.of_nat (length chunks)));
                ("embeddings_generated", PInt (Z.of_nat (length chunks)));
                ("content_length", PInt (Z.of_nat (length content)))], s)
  end.

End document_processing.

(** The white space of CPython 3: the characters for which [str.isspace]
    holds. *)
Definition cpython_isspace (c : N) : bool :=
  ((9 <=? c) && (c <=? 13) || (28 <=? c) && (c <=? 32)
   || bool_decide (c = 133) || bool_decide (c = 160) || bool_decide (c = 5760)
   || (8192 <=? c) && (c <=? 8202) || bool_decide (c = 8232) || bool_decide (c = 8233)
   || bool_decide (c = 8239) || bool_decide (c = 8287) || bool_decide (c = 12288))%N.

#[local] Instance example_text : PyText := {| isspace := cpython_isspace |}.

(** * Definitions used to state the properties *)

(** ** The adjacency list and the traversal, as the specification words them *)

(** The targets of the edges that leave [k], in edge order. *)
Definition targets_of (edges : list WorkflowEdge) (k : string) : list string :=
  edge_target <$> filter (fun edge => edge_source edge = k) edges.

(** What [graph.get(k, [])] holds once the graph is built: the targets of
    the edges leaving [k] when [k] is the id of a node, nothing otherwise. *)
Definition adjacency (nodes : list WorkflowNode) (edges : list WorkflowEdge)
  (k : string) : list string :=
  if decide (k ∈ node_id <$> nodes) then targets_of edges k else [].

(** A state of the traversal: the visited set, the order so far and the
    queue. *)
Definition bfs_state : Type := gset string * list string * list string.

(** Dequeue a node; if it is unvisited mark it, append it to the order and
    enqueue its unvisited outgoing neighbours. *)
Inductive bfs_step (adj : string -> list string) : bfs_state -> bfs_state -> Prop :=
| bfs_skip visited order current queue :
    current ∈ visited ->
    bfs_step adj (visited, order, current :: queue) (visited, order, queue)
| bfs_visit visited order current queue :
    current ∉ visited ->
    bfs_step adj (visited, order, current :: queue)
      (visited ∪ {[current]}, order ++ [current],
       queue ++ filter (fun neighbor => neighbor ∉ visited ∪ {[current]}) (adj current)).

(** Run until the queue drains. *)
Inductive bfs_run (adj : string -> list string)
  : bfs_state -> gset string * list string -> Prop :=
| bfs_done visited order : bfs_run adj (visited, order, []) (visited, order)
| bfs_more s s' r : bfs_step adj s s' -> bfs_run adj s' r -> bfs_run adj s r.

(** The edges whose source is still unvisited: each of them can put one
    more element on the queue. *)
Definition pending (edges : list WorkflowEdge) (visited : gset string) : nat :=
  length (filter (fun edge => edge_source edge ∉ visited) edges).

(** The nodes that the traversal did not reach, in listing order. *)
Definition unreached (nodes : list WorkflowNode) (order : list string) : list string :=
  node_id <$> filter (fun node => node_id node ∉ order) nodes.

(** [input_node] is the first node of type [input] in listing order. *)
Definition first_input_node (nodes : list WorkflowNode) (input_node : WorkflowNode) : Prop :=
  exists before after,
    nodes = before ++ input_node :: after
    /\ node_type input_node = "input"
    /\ forall node, node ∈ before -> node_type node <> "input".

(** [l] is a path of [adj]: each element has the next one as its only
    neighbour and the last one has none. *)
Fixpoint is_chain (adj : string -> list string) (l : list string) : Prop :=
  match l with
  | [] => True
  | x :: l' =>
      match l' with
      | [] => adj x = []
      | y :: _ => adj x = [y] /\ is_chain adj l'
      end
  end.

(** The endpoints of an edge. *)
Definition endpoints (edge : WorkflowEdge) : string * string :=
  (edge_source edge, edge_target edge).

(** ** The validator *)

(** Rule 4 of the validator, in the words of the specification: an llm node
    has a model identifier, a knowledge node has a collection name and, when
    it configures a top-K, one within [1, 50]. *)
Definition well_formed_config (node : WorkflowNode) : Prop :=
  (node_type node = LLM_ENGINE ->
   exists m, model (node_data node) = Some m /\ m <> "")
  /\ (node_type node = KNOWLEDGE_BASE ->
      (exists c, collection (node_data node) = Some c /\ c <> "")
      /\ (forall k, topK (node_data node) = Some k -> (1 <= k <= 50)%Z)).

(** The errors of the per-node configuration checks, in listing order. *)
Definition config_errors (nodes : list WorkflowNode) : list string :=
  mjoin (_validate_node_config <$> nodes).

Definition order_error : string :=
  "Invalid workflow connections - cannot determine execution order".

(** The missing-components message starts with a prefix that no other
    message of the validator has. *)
Definition missing_prefix : string := "Missing required components: ".

Definition names_missing (e : string) : bool := String.prefix missing_prefix e.

(** The types that are required and that no node has. *)
Definition missing_types (nodes : list WorkflowNode) : gset string :=
  required_types ∖ list_to_set (node_type <$> nodes).

(** ** The components *)

Ltac unfold_monad :=
  unfold mbind, M_bind, mret, M_ret, raise, get_context, getitem in *.

(** The earliest value tagged [tag], in terms of the list alone. *)
Definition earliest_tagged (tag : string) (values : list pyval) (d : pydict) : Prop :=
  exists before after,
    values = before ++ PDict d :: after
    /\ has_type_tag tag (PDict d) = true
    /\ forall v, v ∈ before -> has_type_tag tag v = false.

(** The latest value tagged [tag]. *)
Definition latest_tagged (tag : string) (values : list pyval) (d : pydict) : Prop :=
  exists before after,
    values = before ++ PDict d :: after
    /\ has_type_tag tag (PDict d) = true
    /\ forall v, v ∈ after -> has_type_tag tag v = false.

(** The result of the output node carries the response of the entry [d]. *)
Definition output_built_from (node : WorkflowNode) (w : world) (d : pydict) : Prop :=
  exists fields,
    _execute_output node w = (inr (PDict fields), w)
    /\ dict_get fields "response" = dict_get d "response".

(** No result is tagged user_query and the payload has no usable query. *)
Definition no_query (w : world) : Prop :=
  (forall v, v ∈ dict_values (intermediate_results (context w)) ->
             has_type_tag "user_query" v = false)
  /\ truthy (dict_get_default (input_data (context w)) "query" PNone) = false.

(** [m] changes nothing in the state, whether it returns or raises. *)
Definition pure_comp {A : Type} (m : M A) : Prop := forall w, (m w).2 = w.

(** [m] raises, and changes nothing in the state. *)
Definition always_raises {A : Type} (m : M A) : Prop :=
  forall w, exists e, m w = (inl e, w).

(** [m] changes nothing but the trace of service calls. *)
Definition keeps_context {A : Type} (m : M A) : Prop :=
  forall w, context (m w).2 = context w /\ clock_reads (m w).2 = clock_reads w.

(** ** The driver *)

(** A log entry for the node [node_id]. *)
Definition step_of (node_id : string) (step : pyval) : Prop :=
  exists node_type result timestamp,
    step = PDict [("node_id", PStr node_id); ("node_type", PStr node_type);
                  ("result", result); ("timestamp", PFloat timestamp)].

(** The state after a completed step. *)
Definition after_step `{PyRuntime} (node_id : string) (node : WorkflowNode)
  (result : pyval) (started : Q) (w : world) : world :=
  let c := context w in
  {| context :=
       {| input_data := input_data c;
          intermediate_results := dict_set (intermediate_results c) node_id result;
          execution_log :=
            execution_log c
            ++ [PDict [("node_id", PStr node_id);
                       ("node_type", PStr (node_type node));
                       ("result", result);
                       ("timestamp",
                        PFloat (time_time (clock_reads w) - started)%Q)]];
          start_time := start_time c |};
     clock_reads := S (clock_reads w);
     calls := calls w |}.

(** The status field of what a call returned. *)
Definition status_of (r : outcome pyval) : option pyval :=
  match r with
  | Returned (PDict fields) => dict_get fields "status"
  | _ => None
  end.

(** ** Example workflows and states *)

(** Two llm_response entries in one results mapping, as two llm nodes in
    one workflow leave them. *)
Definition llm_result (query response : string) : pydict :=
  [("query", PStr query); ("response", PStr response);
   ("context_used", PBool false); ("web_search_used", PBool false);
   ("type", PStr "llm_response")].

Definition world_with_results (results : pydict) : world :=
  {| context := {| input_data := [("query", PStr "q")];
                   intermediate_results := results;
                   execution_log := [];
                   start_time := 0%Q |};
     clock_reads := 1; calls := [] |}.

Definition two_responses : world :=
  world_with_results [("llm-1", PDict (llm_result "q" "first"));
                      ("llm-2", PDict (llm_result "q" "second"))].

Definition text_output : WorkflowNode :=
  mk_node "out" "output" (mk_data None None (Some "text") None).

Definition json_output : WorkflowNode :=
  mk_node "out" "output" (mk_data None None (Some "json") None).

(** The end-to-end example of the specification: input, llm, output. *)
Definition end_to_end_nodes : list WorkflowNode :=
  [ mk_node "1" "input" (mk_data None None None (Some 5%Z));
    mk_node "2" "llm" (mk_data (Some "x") None None (Some 5%Z));
    mk_node "3" "output" (mk_data None None (Some "text") (Some 5%Z)) ].

Definition end_to_end_edges : list WorkflowEdge :=
  [ mk_edge "1" "2"; mk_edge "2" "3" ].

(** A workflow in which the id of the input node is also the id of an llm
    node: the node map keeps the later of the two, so the llm node runs
    first. *)
Definition shadowed_nodes : list WorkflowNode :=
  [ mk_node "a" "input" (mk_data None None None None);
    mk_node "a" "llm" (mk_data (Some "x") None None None);
    mk_node "b" "output" (mk_data None None None None) ].

(** A valid workflow with an edge from the input node to ["x"], which is
    not a node. *)
Definition dangling_nodes : list WorkflowNode :=
  [ mk_node "1" "input" (mk_data None None None (Some 5%Z));
    mk_node "2" "llm" (mk_data (Some "x") None None (Some 5%Z));
    mk_node "3" "output" (mk_data None None (Some "text") (Some 5%Z)) ].

Definition dangling_edges : list WorkflowEdge := [ mk_edge "1" "x" ].


(** * Further definitions

    Definitions for the properties of the engine beyond the ones above. *)

(** ** Reachability along the edges *)

(** [s] is the id of a node and some edge leads from it to [t]. *)
Definition edge_step (nodes : list WorkflowNode) (edges : list WorkflowEdge)
  (s t : string) : Prop :=
  s ∈ node_id <$> nodes
  /\ exists edge, edge ∈ edges /\ edge_source edge = s /\ edge_target edge = t.

(** [x] can be reached from [root] by following such edges. *)
Definition reachable (nodes : list WorkflowNode) (edges : list WorkflowEdge)
  (root x : string) : Prop :=
  rtc (edge_step nodes edges) root x.

(** Some node has type [t]. *)
Definition has_type (t : string) (nodes : list WorkflowNode) : Prop :=
  exists node, node ∈ nodes /\ node_type node = t.

(** The number of nodes of type [t]. *)
Definition count_type (t : string) (nodes : list WorkflowNode) : nat :=
  length (filter (fun node => node_type node = t) nodes).


(** ** Runs *)

(** A workflow that completes: the knowledge node comes last among the
    nodes with id ["2"], so it is the one the node map keeps. *)
Definition completing_nodes : list WorkflowNode :=
  [ mk_node "1" "input" (mk_data None None None None);
    mk_node "2" "llm" (mk_data (Some "x") None None None);
    mk_node "2" "output" (mk_data None None None None);
    mk_node "2" "knowledge" (mk_data None (Some "docs") None None) ].

(** The node type is one of the four that the dispatcher knows. *)
Definition known_type (t : string) : Prop :=
  t = "input" \/ t = "knowledge" \/ t = "llm" \/ t = "output".

(** No value is tagged llm_response or output. *)
Definition no_answer (values : list pyval) : Prop :=
  forall v, v ∈ values ->
    has_type_tag "llm_response" v = false /\ has_type_tag "output" v = false.


(** The query that the knowledge component settles on: the one of the
    earliest result tagged user_query or, when there is none, the usable
    query of the payload. *)
Definition resolved_query (w : world) (query : pyval) : Prop :=
  (exists d,
     earliest_tagged "user_query" (dict_values (intermediate_results (context w))) d
     /\ dict_get d "query" = Some query)
  \/ ((forall v, v ∈ dict_values (intermediate_results (context w)) ->
                 has_type_tag "user_query" v = false)
      /\ dict_get (input_data (context w)) "query" = Some query
      /\ truthy query = true).

(** A state in which the input node has left its result. *)
Definition world_after_input (query : string) : world :=
  {| context := {| input_data := [("query", PStr query)];
                   intermediate_results :=
                     [("1", PDict [("query", PStr query); ("type", PStr "user_query")])];
                   execution_log := [];
                   start_time := 0%Q |};
     clock_reads := 2; calls := [] |}.


(** ** Text *)

(** [s] occurs in [l] as a contiguous piece. *)
Definition infix_of {A : Type} (s l : list A) : Prop :=
  exists before after, l = before ++ s ++ after.

(** [s] is not empty and neither starts nor ends with white space. *)
Definition trimmed `{PyText} (s : str) : Prop :=
  s <> []
  /\ (forall c, head s = Some c -> isspace c = false)
  /\ (forall c, last s = Some c -> isspace c = false).

(** What the loop of [_create_chunks] keeps true of the text being
    collected: it is empty or holds a sentence. *)
Definition holds_a_sentence `{PyText} (current : str) : Prop :=
  current = [] \/ exists s, trimmed s /\ infix_of s current.

(** A character that no sentence keeps. *)
Definition is_filler `{PyText} (c : N) : Prop :=
  isspace c = true \/ is_terminator c = true.

(** The dict [process_document] returns on success. *)
Definition success_result (chunks_created embeddings_generated content_length : nat)
  : pyval :=
  PDict [("status", PStr "success");
         ("chunks_created", PInt (Z.of_nat chunks_created));
         ("embeddings_generated", PInt (Z.of_nat embeddings_generated));
         ("content_length", PInt (Z.of_nat content_length))].


(** ** Example documents *)

(** Thirty sentences, 1350 characters. *)
Definition fox_text : str :=
  mjoin (replicate 30 (codes "The quick brown fox jumps over the lazy dog. ")).

(** A vector store that is down: every call raises. *)
Definition store_down {A : Type} (s : unit) : (exn + A) * unit :=
  (inl (ServiceError "connection refused"), s).

(** * Properties *)

Example chain_order :
  _determine_execution_order chain_nodes chain_edges
  = ["input-id"; "knowledge-id"; "llm-id"; "output-id"].
Proof. vm_compute. reflexivity. Qed.

(** ** The adjacency list *)

Lemma targets_of_cons edge edges k :
  targets_of (edge :: edges) k
  = if decide (edge_source edge = k) then edge_target edge :: targets_of edges k
    else targets_of edges k.
Proof. unfold targets_of. rewrite filter_cons. by case_decide. Qed.

Lemma init_graph_lookup nodes (graph : gmap string (list string)) k :
  foldl (fun graph node => <[node_id node := []]> graph) graph nodes !! k
  = if decide (k ∈ node_id <$> nodes) then Some [] else graph !! k.
Proof.
  revert graph. induction nodes as [|node nodes IH]; intros graph.
  - done.
  - rewrite fmap_cons. cbn [foldl]. rewrite IH, lookup_insert.
    repeat destruct (decide _); try done; set_solver.
Qed.

Lemma add_edges_lookup edges (graph : gmap string (list string)) k :
  foldl (fun graph edge =>
           match graph !! edge_source edge with
           | Some targets => <[edge_source edge := targets ++ [edge_target edge]]> graph
           | None => graph
           end) graph edges !! k
  = (fun targets => targets ++ targets_of edges k) <$> graph !! k.
Proof.
  revert graph. induction edges as [|edge edges IH]; intros graph; simpl.
  - destruct (graph !! k); simpl; [by rewrite app_nil_r | done].
  - rewrite IH, targets_of_cons.
    destruct (graph !! edge_source edge) as [targets|] eqn:Hsrc.
    + rewrite lookup_insert. destruct (decide _) as [Hk|Hk].
      * subst k. rewrite Hsrc. simpl. by rewrite <- app_assoc.
      * done.
    + destruct (decide _) as [Hk|Hk]; [|done]. subst k. by rewrite Hsrc.
Qed.

Lemma build_graph_lookup nodes edges k :
  default [] (build_graph nodes edges !! k) = adjacency nodes edges k.
Proof.
  unfold build_graph, adjacency.
  rewrite add_edges_lookup, init_graph_lookup, lookup_empty.
  by case_decide.
Qed.

(** ** Breadth-first traversal, as the specification words it *)

Section traversal.
Variable adj : string -> list string.

Lemma bfs_step_deterministic s s1 s2 : bfs_step adj s s1 -> bfs_step adj s s2 -> s1 = s2.
Proof. intros H1 H2. inversion H1; subst; inversion H2; subst; done. Qed.

Lemma bfs_run_deterministic s r1 r2 : bfs_run adj s r1 -> bfs_run adj s r2 -> r1 = r2.
Proof.
  intros H1. revert r2. induction H1 as [visited order|s s' r Hstep _ IH]; intros r2 H2.
  - inversion H2 as [|? ? ? Hstep]; subst; [done | inversion Hstep].
  - inversion H2 as [|? s'' ? Hstep']; subst; [inversion Hstep |].
    apply IH. by rewrite (bfs_step_deterministic _ _ _ Hstep Hstep').
Qed.

(** The visited set is the set of the nodes in the order. *)
Lemma bfs_run_visited s r :
  bfs_run adj s r -> s.1.1 = list_to_set s.1.2 -> r.1 = list_to_set r.2.
Proof.
  induction 1 as [|s s' r Hstep _ IH]; [done|].
  intros Hv. apply IH. destruct Hstep; simpl in *; [done|].
  rewrite list_to_set_app_L. simpl. set_solver.
Qed.

End traversal.

(** ** The loop of the source against the traversal of the specification *)

Lemma bfs_sound adj (graph : gmap string (list string)) :
  (forall k, default [] (graph !! k) = adj k) ->
  forall fuel visited order queue r,
    bfs fuel graph visited order queue = Some r ->
    bfs_run adj (visited, order, queue) r.
Proof.
  intros Hadj. induction fuel as [|fuel IH]; intros visited order queue r Hbfs.
  - destruct queue; simplify_eq/=. constructor.
  - destruct queue as [|current queue]; simplify_eq/=; [constructor|].
    destruct (decide (current ∈ visited)) as [Hin|Hin].
    + eapply bfs_more; [by apply bfs_skip | by apply IH].
    + eapply bfs_more; [by apply bfs_visit |]. rewrite <- Hadj. by apply IH.
Qed.

Lemma pending_visit edges (visited : gset string) current :
  current ∉ visited ->
  length (targets_of edges current) + pending edges (visited ∪ {[current]})
  = pending edges visited.
Proof.
  intros Hin. unfold pending. induction edges as [|edge edges IH].
  - done.
  - rewrite targets_of_cons, !filter_cons.
    repeat destruct (decide _); simpl; try lia; set_solver.
Qed.

Lemma adjacency_length nodes edges k :
  length (adjacency nodes edges k) <= length (targets_of edges k).
Proof. unfold adjacency. destruct (decide _); simpl; lia. Qed.

(** The loop terminates: fuel for every queued element and every pending
    edge is enough. *)
Lemma bfs_fuel_enough nodes edges fuel :
  forall visited order queue,
    length queue + pending edges visited <= fuel ->
    is_Some (bfs fuel (build_graph nodes edges) visited order queue).
Proof.
  induction fuel as [|fuel IH]; intros visited order queue Hfuel.
  - destruct queue; simpl in *; [eauto | lia].
  - destruct queue as [|current queue]; simpl in *; [eauto|].
    destruct (decide (current ∈ visited)) as [Hin|Hin].
    + apply IH. lia.
    + apply IH. rewrite length_app.
      pose proof (length_filter (fun neighbor => neighbor ∉ visited ∪ {[current]})
                    (default [] (build_graph nodes edges !! current))) as Hf.
      rewrite build_graph_lookup in Hf.
      pose proof (adjacency_length nodes edges current).
      pose proof (pending_visit edges visited current Hin).
      rewrite build_graph_lookup. lia.
Qed.

Lemma pending_empty edges : pending edges ∅ = length edges.
Proof.
  unfold pending. induction edges as [|edge edges IH]; [done|].
  rewrite filter_cons. destruct (decide _) as [_|Hn]; simpl; [lia | set_solver].
Qed.

Lemma resolve_order_bfs nodes edges input_node :
  find (fun node => bool_decide (node_type node = USER_QUERY)) nodes = Some input_node ->
  exists visited order,
    bfs_run (adjacency nodes edges) (∅, [], [node_id input_node]) (visited, order)
    /\ _determine_execution_order nodes edges = order ++ unreached nodes order.
Proof.
  intros Hfind. unfold _determine_execution_order. rewrite Hfind.
  destruct (bfs_fuel_enough nodes edges (S (length edges)) ∅ [] [node_id input_node])
    as [[visited order] Hbfs].
  { rewrite pending_empty. simpl. lia. }
  rewrite Hbfs. exists visited, order.
  pose proof (bfs_sound (adjacency nodes edges) _ (build_graph_lookup nodes edges)
                _ _ _ _ _ Hbfs) as Hrun.
  split; [done|].
  pose proof (bfs_run_visited _ _ _ Hrun eq_refl) as Hv. simpl in Hv. subst visited.
  unfold unreached. f_equal. f_equal.
  apply list_filter_iff. intros node. by rewrite elem_of_list_to_set.
Qed.

Lemma resolve_order_no_input nodes edges :
  find (fun node => bool_decide (node_type node = USER_QUERY)) nodes = None ->
  _determine_execution_order nodes edges = [].
Proof. intros Hfind. unfold _determine_execution_order. by rewrite Hfind. Qed.

(** ** Linear chains *)

Lemma bfs_run_chain adj rest :
  forall current (visited : gset string) order,
    NoDup (current :: rest) ->
    (forall x, x ∈ current :: rest -> x ∉ visited) ->
    is_chain adj (current :: rest) ->
    bfs_run adj (visited, order, [current])
      (visited ∪ list_to_set (current :: rest), order ++ current :: rest).
Proof.
  induction rest as [|next rest IH]; intros current visited order Hnd Hfresh Hchain.
  - simpl in Hchain. eapply bfs_more.
    + apply bfs_visit. apply Hfresh. set_solver.
    + rewrite Hchain. simpl.
      replace (visited ∪ ({[current]} ∪ ∅)) with (visited ∪ {[current]}) by set_solver.
      constructor.
  - destruct Hchain as [Hadj Hchain]. apply NoDup_cons in Hnd as [Hcur Hnd].
    eapply bfs_more.
    + apply bfs_visit. apply Hfresh. set_solver.
    + rewrite Hadj, app_nil_l, filter_cons_True, filter_nil.
      2:{ pose proof (Hfresh next). set_solver. }
      replace (visited ∪ list_to_set (current :: next :: rest))
        with ((visited ∪ {[current]}) ∪ list_to_set (next :: rest)) by set_solver.
      replace (order ++ current :: next :: rest)
        with ((order ++ [current]) ++ next :: rest) by (by rewrite <- app_assoc).
      apply IH; [done | | done].
      intros x Hx. pose proof (Hfresh x). set_solver.
Qed.

Lemma filter_fmap {A B : Type} (f : A -> B) (P : B -> Prop)
  `{forall y, Decision (P y)} (l : list A) :
  filter P (f <$> l) = f <$> filter (fun x => P (f x)) l.
Proof.
  induction l as [|x l IH]; [done|].
  rewrite fmap_cons, !filter_cons. destruct (decide _); by rewrite ?fmap_cons, IH.
Qed.

Lemma targets_of_perm edges pairs k :
  endpoints <$> edges ≡ₚ pairs ->
  targets_of edges k ≡ₚ (filter (fun p => p.1 = k) pairs).*2.
Proof.
  intros Hperm. rewrite <- Hperm. unfold targets_of.
  rewrite (filter_fmap endpoints (fun p => p.1 = k)).
  by rewrite <- list_fmap_compose.
Qed.

Lemma well_formed_config_no_error node :
  well_formed_config node -> _validate_node_config node = [].
Proof.
  intros [Hllm Hkb]. unfold _validate_node_config.
  destruct (decide (node_type node = LLM_ENGINE)) as [Ht|_].
  - destruct (Hllm Ht) as (m & -> & Hm). simpl.
    by rewrite bool_decide_eq_false_2.
  - destruct (decide (node_type node = KNOWLEDGE_BASE)) as [Ht|_]; [|done].
    destruct (Hkb Ht) as [(c & -> & Hc) Hk]. simpl.
    rewrite bool_decide_eq_false_2 by done. simpl.
    destruct (topK (node_data node)) as [k|]; [|done].
    specialize (Hk k eq_refl). destruct (decide _); [lia | done].
Qed.

Lemma filter_none {A : Type} (P : A -> Prop) `{forall x, Decision (P x)} (l : list A) :
  (forall x, x ∈ l -> ~ P x) -> filter P l = [].
Proof.
  induction l as [|x l IH]; intros Hall; [done|].
  rewrite filter_cons_False by (apply Hall; set_solver).
  apply IH. intros y Hy. apply Hall. set_solver.
Qed.

Section chain_of_four.
Context `{PyRuntime}.
Variables (n_in n_kb n_llm n_out : WorkflowNode).
Variables (nodes : list WorkflowNode) (edges : list WorkflowEdge).
Hypothesis Hin : node_type n_in = "input".
Hypothesis Hkb : node_type n_kb = "knowledge".
Hypothesis Hllm : node_type n_llm = "llm".
Hypothesis Hout : node_type n_out = "output".
Hypothesis Hids : NoDup (node_id <$> [n_in; n_kb; n_llm; n_out]).
Hypothesis Hnodes : nodes ≡ₚ [n_in; n_kb; n_llm; n_out].
Hypothesis Hedges :
  endpoints <$> edges
  ≡ₚ [(node_id n_in, node_id n_kb); (node_id n_kb, node_id n_llm);
      (node_id n_llm, node_id n_out)].

Lemma chain_distinct :
  node_id n_in <> node_id n_kb /\ node_id n_in <> node_id n_llm
  /\ node_id n_in <> node_id n_out /\ node_id n_kb <> node_id n_llm
  /\ node_id n_kb <> node_id n_out /\ node_id n_llm <> node_id n_out.
Proof.
  clear -Hids. cbn in Hids. rewrite !NoDup_cons in Hids. set_solver.
Qed.

Lemma chain_node_ids x : x ∈ nodes -> node_id x ∈ (node_id <$> [n_in; n_kb; n_llm; n_out]).
Proof using Hnodes. rewrite Hnodes. intros Hx. by apply list_elem_of_fmap_2. Qed.

Lemma chain_is_chain : is_chain (adjacency nodes edges) (node_id <$> [n_in; n_kb; n_llm; n_out]).
Proof.
  destruct chain_distinct as (? & ? & ? & ? & ? & ?).
  assert (forall k, k ∈ (node_id <$> [n_in; n_kb; n_llm; n_out]) -> adjacency nodes edges k = targets_of edges k) as Hadj.
  { intros k Hk. unfold adjacency. rewrite decide_True; [done|]. by rewrite Hnodes. }
  assert (forall k l, (filter (fun p : string * string => p.1 = k)
               [(node_id n_in, node_id n_kb); (node_id n_kb, node_id n_llm);
                (node_id n_llm, node_id n_out)]).*2 = l ->
             k ∈ (node_id <$> [n_in; n_kb; n_llm; n_out]) -> adjacency nodes edges k = l) as Hone.
  { intros k l Hl Hk. rewrite (Hadj k Hk).
    pose proof (targets_of_perm edges _ k Hedges) as Hp. rewrite Hl in Hp.
    destruct l as [|y [|z l]].
    - by apply Permutation_nil_r in Hp.
    - by apply Permutation_singleton_r in Hp.
    - exfalso. revert Hl. rewrite !filter_cons, filter_nil. simpl.
      repeat destruct (decide _); simpl; congruence. }
  cbn [is_chain fmap list_fmap]. repeat split.
  all: apply Hone; [|set_solver].
  all: rewrite !filter_cons, filter_nil; simpl.
  all: repeat destruct (decide _); simpl; congruence.
Qed.

Lemma chain_find_input :
  exists input_node,
    find (fun node => bool_decide (node_type node = USER_QUERY)) nodes = Some input_node
    /\ node_id input_node = node_id n_in.
Proof.
  destruct (find _ nodes) as [input_node|] eqn:Hfind.
  - exists input_node. split; [done|].
    apply find_some in Hfind as [Hx Ht]. apply bool_decide_eq_true in Ht.
    apply list_elem_of_In in Hx. rewrite Hnodes in Hx.
    unfold USER_QUERY in Ht.
    set_unfold in Hx. destruct Hx as [->|[->|[->|[->|[]]]]]; [done|congruence..].
  - exfalso. pose proof (find_none _ _ Hfind n_in) as Hn.
    rewrite bool_decide_eq_false in Hn. apply Hn; [|done].
    apply list_elem_of_In. rewrite Hnodes. set_solver.
Qed.

Lemma chain_resolve_order : _determine_execution_order nodes edges = (node_id <$> [n_in; n_kb; n_llm; n_out]).
Proof.
  destruct chain_find_input as (input_node & Hfind & Hid).
  destruct (resolve_order_bfs nodes edges input_node Hfind) as (visited & order & Hrun & ->).
  pose proof (bfs_run_chain (adjacency nodes edges) [node_id n_kb; node_id n_llm; node_id n_out]
                (node_id n_in) ∅ [] Hids) as Hchain.
  rewrite Hid in Hrun.
  pose proof (bfs_run_deterministic _ _ _ _ Hrun
                (Hchain ltac:(set_solver) chain_is_chain)) as Heq.
  simplify_eq. unfold unreached. rewrite filter_none; [by rewrite app_nil_r|].
  intros x Hx Hnot. apply Hnot. by apply chain_node_ids.
Qed.

Lemma chain_structural : structural_errors nodes = [].
Proof.
  unfold structural_errors.
  rewrite decide_True, decide_False, decide_False; [done | | |].
  - rewrite Hnodes. rewrite !filter_cons, filter_nil.
    unfold OUTPUT. rewrite Hin, Hkb, Hllm, Hout. simpl. lia.
  - rewrite Hnodes. rewrite !filter_cons, filter_nil.
    unfold USER_QUERY. rewrite Hin, Hkb, Hllm, Hout. simpl. lia.
  - rewrite Hnodes. cbn [fmap list_fmap list_to_set foldr].
    rewrite Hin, Hllm, Hout. unfold required_types, USER_QUERY, LLM_ENGINE, OUTPUT.
    set_solver.
Qed.

Lemma chain_validate :
  Forall well_formed_config nodes ->
  validate_workflow nodes edges
  = {| is_valid := true; errors := []; warnings := []; execution_order := (node_id <$> [n_in; n_kb; n_llm; n_out]) |}.
Proof.
  intros Hwf. unfold validate_workflow.
  rewrite chain_structural, chain_resolve_order. cbn [fmap list_fmap app].
  assert (mjoin (_validate_node_config <$> nodes) = []) as ->.
  { apply join_nil_2, Forall_fmap. eapply Forall_impl; [exact Hwf|].
    intros node. apply well_formed_config_no_error. }
  done.
Qed.

End chain_of_four.

Lemma first_input_node_find nodes input_node :
  first_input_node nodes input_node ->
  find (fun node => bool_decide (node_type node = USER_QUERY)) nodes = Some input_node.
Proof.
  intros (before & after & -> & Ht & Hbefore).
  induction before as [|node before IH]; simpl.
  - by rewrite bool_decide_eq_true_2.
  - rewrite bool_decide_eq_false_2 by (apply Hbefore; set_solver).
    apply IH. intros node' Hn. apply Hbefore. set_solver.
Qed.

(** When every edge leaves a node, as the data model requires, the adjacency
    list maps every id to the targets of all the edges that leave it. *)
Lemma adjacency_all_edges nodes edges :
  (forall edge, edge ∈ edges -> edge_source edge ∈ node_id <$> nodes) ->
  forall k, adjacency nodes edges k = targets_of edges k.
Proof.
  intros Hsources k. unfold adjacency. destruct (decide _) as [|Hk]; [done|].
  unfold targets_of. rewrite filter_none; [done|].
  intros edge Hedge Hsrc. apply Hk. rewrite <- Hsrc. by apply Hsources.
Qed.

(** C1.  When the node list has a node of type input, the traversal of the
    specification, started from the first such node over the adjacency
    list of the edges, runs to completion, and [_determine_execution_order]
    returns its order followed by the ids of the nodes that are not in it,
    in listing order.  For a chain input -> knowledge -> llm -> output of
    four nodes with distinct ids and well-formed configuration, listed and
    connected in any order, the order is the four ids in chain order, and it
    is the execution order that validation reports.  The adjacency list
    holds, for the id of a node, the targets of the edges that leave it, in
    edge order, and nothing for any other id; when every edge leaves a node
    it holds the targets of all edges. *)
Theorem C1_resolve_order_is_bfs_then_unreached `{PyRuntime}
  (nodes : list WorkflowNode) (edges : list WorkflowEdge) :
  (forall input_node,
     first_input_node nodes input_node ->
     (exists visited order,
        bfs_run (adjacency nodes edges) (∅, [], [node_id input_node]) (visited, order))
     /\ (forall visited order,
           bfs_run (adjacency nodes edges) (∅, [], [node_id input_node]) (visited, order) ->
           _determine_execution_order nodes edges
           = order ++ (node_id <$> filter (fun node => node_id node ∉ order) nodes)))
  /\ (forall k,
        default [] (build_graph nodes edges !! k)
        = if decide (k ∈ node_id <$> nodes)
          then edge_target <$> filter (fun edge => edge_source edge = k) edges
          else [])
  /\ ((forall edge, edge ∈ edges -> edge_source edge ∈ node_id <$> nodes) ->
      forall k,
        adjacency nodes edges k
        = edge_target <$> filter (fun edge => edge_source edge = k) edges)
  /\ (forall n_in n_kb n_llm n_out,
        node_type n_in = "input" -> node_type n_kb = "knowledge" ->
        node_type n_llm = "llm" -> node_type n_out = "output" ->
        NoDup [node_id n_in; node_id n_kb; node_id n_llm; node_id n_out] ->
        nodes ≡ₚ [n_in; n_kb; n_llm; n_out] ->
        endpoints <$> edges
        ≡ₚ [(node_id n_in, node_id n_kb); (node_id n_kb, node_id n_llm);
            (node_id n_llm, node_id n_out)] ->
        Forall well_formed_config nodes ->
        _determine_execution_order nodes edges
        = [node_id n_in; node_id n_kb; node_id n_llm; node_id n_out]
        /\ validate_workflow nodes edges
           = {| is_valid := true; errors := []; warnings := [];
                execution_order :=
                  [node_id n_in; node_id n_kb; node_id n_llm; node_id n_out] |}).
Proof.
  split; [|split; [|split]].
  - intros input_node Hfirst. apply first_input_node_find in Hfirst.
    destruct (resolve_order_bfs nodes edges input_node Hfirst)
      as (visited & order & Hrun & Heq).
    split; [by exists visited, order|].
    intros visited' order' Hrun'.
    pose proof (bfs_run_deterministic _ _ _ _ Hrun Hrun'). by simplify_eq.
  - apply build_graph_lookup.
  - apply adjacency_all_edges.
  - intros n_in n_kb n_llm n_out Hin Hkb Hllm Hout Hids Hnodes Hedges Hwf. split.
    + by apply (chain_resolve_order n_in n_kb n_llm n_out).
    + by apply (chain_validate n_in n_kb n_llm n_out).
Qed.

Lemma C1_witness :
  (exists visited order,
     bfs_run (adjacency chain_nodes chain_edges) (∅, [], ["input-id"]) (visited, order))
  /\ _determine_execution_order chain_nodes chain_edges
     = ["input-id"; "knowledge-id"; "llm-id"; "output-id"]
  /\ is_valid (validate_workflow chain_nodes chain_edges) = true.
Proof.
  destruct (C1_resolve_order_is_bfs_then_unreached chain_nodes chain_edges)
    as (Hgeneral & _ & _ & Hchain).
  split.
  - refine (proj1 (Hgeneral (mk_node "input-id" "input" (mk_data None None None (Some 5%Z))) _)).
    exists [], (tail chain_nodes). split; [reflexivity|]. split; [reflexivity|].
    intros node Hnode. inversion Hnode.
  - destruct (Hchain
      (mk_node "input-id" "input" (mk_data None None None (Some 5%Z)))
      (mk_node "knowledge-id" "knowledge" (mk_data None (Some "docs") None (Some 5%Z)))
      (mk_node "llm-id" "llm" (mk_data (Some "gpt") None None (Some 5%Z)))
      (mk_node "output-id" "output" (mk_data None None (Some "text") (Some 5%Z))))
      as [Horder Hvalid].
    + reflexivity.
    + reflexivity.
    + reflexivity.
    + reflexivity.
    + apply (bool_decide_unpack _). vm_compute. exact I.
    + reflexivity.
    + reflexivity.
    + repeat apply Forall_cons_2; [| | | |apply Forall_nil_2].
      all: split; intros Htype; try discriminate Htype.
      * split; [eexists; split; [reflexivity | discriminate]|].
        intros top_k Hk. injection Hk as <-. lia.
      * eexists; split; [reflexivity | discriminate].
    + split; [exact Horder | by rewrite Hvalid].
Defined.

(** ** The validator *)

Section validator.
Context `{PyRuntime}.

Lemma validate_workflow_errors nodes edges :
  errors (validate_workflow nodes edges)
  = structural_errors nodes
    ++ (if decide (structural_errors nodes = []
                   /\ _determine_execution_order nodes edges = [])
        then [order_error] else [])
    ++ config_errors nodes.
Proof.
  unfold validate_workflow, config_errors.
  destruct (decide _) as [[Hs Ho]|Hn].
  - by rewrite Hs, Ho.
  - destruct (structural_errors nodes) as [|e es]; [|done].
    destruct (_determine_execution_order nodes edges); [by destruct Hn | done].
Qed.

Lemma validate_workflow_order nodes edges :
  execution_order (validate_workflow nodes edges)
  = if decide (structural_errors nodes = [])
    then _determine_execution_order nodes edges else [].
Proof.
  unfold validate_workflow. by destruct (structural_errors nodes).
Qed.

Lemma validate_workflow_is_valid nodes edges :
  is_valid (validate_workflow nodes edges) = true
  <-> errors (validate_workflow nodes edges) = [].
Proof.
  assert (is_valid (validate_workflow nodes edges)
          = bool_decide (length (errors (validate_workflow nodes edges)) = 0)) as ->.
  { unfold validate_workflow. destruct (structural_errors nodes); [|done].
    by destruct (_determine_execution_order nodes edges). }
  rewrite bool_decide_eq_true. apply length_zero_iff_nil.
Qed.

Lemma validate_workflow_warnings nodes edges :
  warnings (validate_workflow nodes edges) = [].
Proof.
  unfold validate_workflow. destruct (structural_errors nodes); [|done].
  by destruct (_determine_execution_order nodes edges).
Qed.

Lemma config_error_emitted nodes edges node e :
  node ∈ nodes -> e ∈ _validate_node_config node ->
  e ∈ errors (validate_workflow nodes edges).
Proof.
  intros Hnode He. rewrite validate_workflow_errors, !elem_of_app.
  right; right. unfold config_errors. apply list_elem_of_join.
  exists (_validate_node_config node). split; [done|].
  by apply list_elem_of_fmap_2.
Qed.

Lemma config_errors_not_missing nodes :
  Forall (fun e => names_missing e = false) (config_errors nodes).
Proof.
  apply Forall_forall. intros e He. unfold config_errors in He.
  apply list_elem_of_join in He as (l & He & Hl).
  apply list_elem_of_fmap in Hl as (node & -> & _).
  unfold _validate_node_config in He.
  repeat (destruct (decide _) || destruct (truthy _) || destruct (topK _));
    set_unfold in He; naive_solver.
Qed.

Lemma elem_of_missing_types nodes t :
  t ∈ missing_types nodes
  <-> (t = "input" \/ t = "llm" \/ t = "output")
      /\ forall node, node ∈ nodes -> node_type node <> t.
Proof.
  unfold missing_types, required_types, USER_QUERY, LLM_ENGINE, OUTPUT.
  rewrite elem_of_difference, elem_of_list_to_set, list_elem_of_fmap.
  set_unfold. naive_solver.
Qed.

Lemma structural_errors_missing nodes :
  ~ required_types ⊆ list_to_set (node_type <$> nodes) ->
  exists rest,
    structural_errors nodes
    = (missing_prefix +:+ String.concat ", " (set_iter (missing_types nodes))) :: rest
    /\ Forall (fun e => names_missing e = false) rest.
Proof.
  intros Hmissing. unfold structural_errors. rewrite decide_False by done.
  eexists. split; [reflexivity|].
  repeat destruct (decide _); simpl; repeat constructor.
Qed.

Lemma structural_errors_covered nodes :
  required_types ⊆ list_to_set (node_type <$> nodes) ->
  Forall (fun e => names_missing e = false) (structural_errors nodes).
Proof.
  intros Hcovered. unfold structural_errors. rewrite decide_True by done.
  repeat destruct (decide _); simpl; repeat constructor.
Qed.

End validator.

Lemma elem_of_set_iter `{PyRuntime} (s : gset string) t : t ∈ set_iter s <-> t ∈ s.
Proof. by rewrite set_iter_perm, elem_of_elements. Qed.

Lemma missing_types_nonempty nodes t :
  t ∈ missing_types nodes -> ~ required_types ⊆ list_to_set (node_type <$> nodes).
Proof. unfold missing_types. set_solver. Qed.

(** C6.  Let [v] be the result of validation.
    - When no node has type input, [v] is invalid, its execution order is
      empty and its first error is the missing-components message, whose
      list of names contains ["input"].
    - Whenever some required type is missing, the errors start with that
      message and no later error is a missing-components message; the names
      in it are exactly the types among input, llm, output that no node
      has, each once.
    - The execution order is empty when a structural check emitted an
      error, and is the resolver's order otherwise. *)
Theorem C6_missing_required_types `{PyRuntime}
  (nodes : list WorkflowNode) (edges : list WorkflowEdge) :
  let v := validate_workflow nodes edges in
  let message :=
    "Missing required components: " +:+ String.concat ", " (set_iter (missing_types nodes)) in
  ((forall node, node ∈ nodes -> node_type node <> "input") ->
   is_valid v = false /\ execution_order v = []
   /\ head (errors v) = Some message
   /\ "input" ∈ set_iter (missing_types nodes))
  /\ ((exists t, t ∈ missing_types nodes) ->
      exists rest,
        errors v = message :: rest
        /\ Forall (fun e => String.prefix "Missing required components: " e = false) rest)
  /\ (forall t,
        t ∈ set_iter (missing_types nodes)
        <-> (t = "input" \/ t = "llm" \/ t = "output")
            /\ forall node, node ∈ nodes -> node_type node <> t)
  /\ NoDup (set_iter (missing_types nodes))
  /\ (structural_errors nodes <> [] -> execution_order v = [])
  /\ (structural_errors nodes = [] ->
      execution_order v = _determine_execution_order nodes edges).
Proof.
  intros v message.
  assert ((exists t, t ∈ missing_types nodes) ->
          exists rest,
            errors v = message :: rest
            /\ Forall (fun e => names_missing e = false) rest) as Hmissing.
  { intros [t Ht]. apply missing_types_nonempty in Ht.
    destruct (structural_errors_missing nodes Ht) as (rest & Hs & Hrest).
    subst v. rewrite validate_workflow_errors, Hs.
    rewrite decide_False by (by intros [? _]).
    eexists. split; [reflexivity|].
    apply Forall_app. split; [done|]. apply config_errors_not_missing. }
  split; [|split; [done|]].
  - intros Hnone.
    assert ("input" ∈ missing_types nodes) as Hinput.
    { apply elem_of_missing_types. split; [by left | done]. }
    destruct Hmissing as (rest & Herr & _); [by exists "input"|].
    split; [|split; [|split]].
    + destruct (is_valid v) eqn:Hv; [|done].
      apply validate_workflow_is_valid in Hv. unfold v in Herr.
      by rewrite Herr in Hv.
    + subst v. rewrite validate_workflow_order, decide_False; [done|].
      apply missing_types_nonempty in Hinput.
      destruct (structural_errors_missing nodes Hinput) as (? & -> & _). done.
    + by rewrite Herr.
    + by apply elem_of_set_iter.
  - split; [|split; [|split]].
    + intros t. by rewrite elem_of_set_iter, elem_of_missing_types.
    + rewrite set_iter_perm. apply NoDup_elements.
    + intros Hs. subst v. by rewrite validate_workflow_order, decide_False.
    + intros Hs. subst v. by rewrite validate_workflow_order, decide_True.
Qed.

Lemma C6_witness :
  is_valid (validate_workflow [] []) = false
  /\ execution_order (validate_workflow [] []) = []
  /\ "input" ∈ set_iter (missing_types []).
Proof.
  destruct (C6_missing_required_types [] []) as [Hnone _].
  destruct Hnone as (Hv & Ho & _ & Hin).
  - intros node Hnode. inversion Hnode.
  - exact (conj Hv (conj Ho Hin)).
Defined.

(** C9.  Whatever else validation finds, every node is checked: an llm node
    whose model is absent or empty, a knowledge node whose collection is
    absent or empty and a knowledge node whose configured top-K is below 1
    or above 50 each put their message in the error list.  The result is
    valid exactly when the error list is empty, and the warning list is
    always empty. *)
Theorem C9_config_checks_always_run `{PyRuntime}
  (nodes : list WorkflowNode) (edges : list WorkflowEdge) :
  let v := validate_workflow nodes edges in
  (forall node,
     node ∈ nodes -> node_type node = "llm" ->
     model (node_data node) = None \/ model (node_data node) = Some "" ->
     "LLM Engine node " +:+ node_id node +:+ ": Model is required" ∈ errors v)
  /\ (forall node,
        node ∈ nodes -> node_type node = "knowledge" ->
        collection (node_data node) = None \/ collection (node_data node) = Some "" ->
        "Knowledge Base node " +:+ node_id node +:+ ": Collection name is required"
          ∈ errors v)
  /\ (forall node k,
        node ∈ nodes -> node_type node = "knowledge" ->
        topK (node_data node) = Some k -> (k < 1 \/ 50 < k)%Z ->
        "Knowledge Base node " +:+ node_id node +:+ ": TopK must be between 1 and 50"
          ∈ errors v)
  /\ (is_valid v = true <-> errors v = [])
  /\ warnings v = [].
Proof.
  intros v. split; [|split; [|split; [|split]]].
  - intros node Hnode Ht Hmodel. apply (config_error_emitted _ _ node); [done|].
    unfold _validate_node_config, LLM_ENGINE. rewrite decide_True by done.
    destruct Hmodel as [-> | ->]; simpl; set_solver.
  - intros node Hnode Ht Hcoll. apply (config_error_emitted _ _ node); [done|].
    unfold _validate_node_config, LLM_ENGINE, KNOWLEDGE_BASE.
    rewrite decide_False by (rewrite Ht; discriminate). rewrite decide_True by done.
    destruct Hcoll as [-> | ->]; simpl; set_solver.
  - intros node k Hnode Ht Hk Hrange. apply (config_error_emitted _ _ node); [done|].
    unfold _validate_node_config, LLM_ENGINE, KNOWLEDGE_BASE.
    rewrite decide_False by (rewrite Ht; discriminate). rewrite decide_True by done.
    rewrite Hk, decide_True by lia. set_solver.
  - apply validate_workflow_is_valid.
  - apply validate_workflow_warnings.
Qed.

Lemma C9_witness :
  "LLM Engine node n: Model is required"
    ∈ errors (validate_workflow [mk_node "n" "llm" (mk_data None None None None)] []).
Proof.
  destruct (C9_config_checks_always_run
              [mk_node "n" "llm" (mk_data None None None None)] []) as [Hllm _].
  apply (Hllm (mk_node "n" "llm" (mk_data None None None None))).
  - apply list_elem_of_here.
  - reflexivity.
  - left. reflexivity.
Defined.

(** ** The components *)

Lemma first_tagged_earliest tag values d :
  earliest_tagged tag values d -> first_tagged tag values = Some d.
Proof.
  intros (before & after & -> & Hd & Hbefore).
  induction before as [|v before IH]; simpl in *.
  - by rewrite Hd.
  - assert (has_type_tag tag v = false) as Hv by (apply Hbefore; set_solver).
    assert (first_tagged tag (before ++ PDict d :: after) = Some d) as IH'.
    { apply IH. intros v' Hv'. apply Hbefore. set_solver. }
    destruct v; try done. simpl in Hv. by rewrite Hv.
Qed.

Lemma first_tagged_none tag values :
  (forall v, v ∈ values -> has_type_tag tag v = false) ->
  first_tagged tag values = None.
Proof.
  induction values as [|v values IH]; intros Hall; [done|].
  assert (has_type_tag tag v = false) as Hv by (apply Hall; set_solver).
  assert (first_tagged tag values = None) as IH'.
  { apply IH. intros v' Hv'. apply Hall. set_solver. }
  destruct v; try done. simpl in *. by rewrite Hv.
Qed.

Lemma tagged_not_falsy tag d :
  has_type_tag tag (PDict d) = true -> is_falsy (Some d) = false.
Proof. by destruct d. Qed.

Section output.
Context `{PyRuntime} `{Capabilities}.

Lemma _execute_output_json node w d response query context_used :
  earliest_tagged "llm_response" (dict_values (intermediate_results (context w))) d ->
  format (node_data node) = Some "json" ->
  dict_get d "response" = Some response ->
  dict_get d "query" = Some query ->
  dict_get d "context_used" = Some context_used ->
  _execute_output node w
  = (inr (PDict [("response", response);
                 ("metadata", PDict [("query", query);
                                     ("context_used", context_used);
                                     ("format", PStr "json")]);
                 ("type", PStr "output")]), w).
Proof.
  intros Hd Hformat Hr Hq Hc. unfold _execute_output. unfold_monad.
  rewrite (first_tagged_earliest _ _ _ Hd).
  destruct Hd as (_ & _ & _ & Htag & _).
  rewrite (tagged_not_falsy _ _ Htag), Hformat. simpl.
  by rewrite Hr, Hq, Hc.
Qed.

Lemma _execute_output_plain node w d response :
  earliest_tagged "llm_response" (dict_values (intermediate_results (context w))) d ->
  format (node_data node) <> Some "json" ->
  dict_get d "response" = Some response ->
  _execute_output node w
  = (inr (PDict [("response", response); ("type", PStr "output")]), w).
Proof.
  intros Hd Hformat Hr. unfold _execute_output. unfold_monad.
  rewrite (first_tagged_earliest _ _ _ Hd).
  destruct Hd as (_ & _ & _ & Htag & _).
  rewrite (tagged_not_falsy _ _ Htag).
  rewrite decide_False; [by rewrite Hr|].
  unfold str_or. destruct (format (node_data node)) as [s|]; [|done].
  destruct (decide (s = "")); [done | congruence].
Qed.

Lemma _execute_output_no_response node w :
  (forall v, v ∈ dict_values (intermediate_results (context w)) ->
             has_type_tag "llm_response" v = false) ->
  _execute_output node w = (inl (ValueError "No LLM response found for output"), w).
Proof.
  intros Hnone. unfold _execute_output. unfold_monad.
  by rewrite (first_tagged_none _ _ Hnone).
Qed.

End output.

(** C8.  An output node that runs when the earliest llm_response entry [d]
    of the results carries a response: with format ["json"] (and [d]
    carrying a query and a context-used flag, as every result of the llm
    component does) it returns the response, a metadata dict with the query,
    the flag and format ["json"], and the output tag; with any other format,
    or none, it returns the response and the output tag and nothing else. *)
Theorem C8_output_format (node : WorkflowNode) (w : world) (d : pydict) (response : pyval) :
  earliest_tagged "llm_response" (dict_values (intermediate_results (context w))) d ->
  dict_get d "response" = Some response ->
  (forall query context_used,
     format (node_data node) = Some "json" ->
     dict_get d "query" = Some query ->
     dict_get d "context_used" = Some context_used ->
     _execute_output node w
     = (inr (PDict [("response", response);
                    ("metadata", PDict [("query", query);
                                        ("context_used", context_used);
                                        ("format", PStr "json")]);
                    ("type", PStr "output")]), w))
  /\ (format (node_data node) <> Some "json" ->
      _execute_output node w
      = (inr (PDict [("response", response); ("type", PStr "output")]), w)).
Proof.
  intros Hd Hr. split.
  - intros query context_used Hformat Hq Hc. by apply (_execute_output_json _ _ d).
  - intros Hformat. by apply (_execute_output_plain _ _ d).
Qed.

Lemma C8_witness :
  _execute_output json_output two_responses
  = (inr (PDict [("response", PStr "first");
                 ("metadata", PDict [("query", PStr "q");
                                     ("context_used", PBool false);
                                     ("format", PStr "json")]);
                 ("type", PStr "output")]), two_responses)
  /\ _execute_output text_output two_responses
     = (inr (PDict [("response", PStr "first"); ("type", PStr "output")]), two_responses).
Proof.
  assert (earliest_tagged "llm_response"
            (dict_values (intermediate_results (context two_responses)))
            (llm_result "q" "first")) as Hd.
  { exists [], [PDict (llm_result "q" "second")].
    split; [reflexivity|]. split; [reflexivity|]. intros v Hv. inversion Hv. }
  split.
  - apply (proj1 (C8_output_format json_output two_responses _ _ Hd eq_refl));
      reflexivity.
  - apply (proj2 (C8_output_format text_output two_responses _ _ Hd eq_refl)).
    discriminate.
Defined.

(** With two llm_response entries the output node does not use the latest
    one. *)
Lemma C3_counterexample :
  latest_tagged "llm_response"
    (dict_values (intermediate_results (context two_responses)))
    (llm_result "q" "second")
  /\ ~ output_built_from text_output two_responses (llm_result "q" "second").
Proof.
  split.
  - exists [PDict (llm_result "q" "first")], [].
    split; [reflexivity|]. split; [reflexivity|]. intros v Hv. inversion Hv.
  - intros (fields & Hrun & Hresponse).
    vm_compute in Hrun. injection Hrun as <-. vm_compute in Hresponse. discriminate.
Qed.

(** C3, amended.  When the results hold an entry tagged llm_response, the
    output node builds its result from the earliest such entry in insertion
    order (the scan stops at the first match); the entry is found by its
    tag in the results mapping alone.  When no entry is tagged
    llm_response, the output node raises
    [ValueError("No LLM response found for output")]. *)
Theorem C3_output_uses_earliest_response (node : WorkflowNode) (w : world) :
  (forall d response query context_used,
     earliest_tagged "llm_response" (dict_values (intermediate_results (context w))) d ->
     dict_get d "response" = Some response ->
     dict_get d "query" = Some query ->
     dict_get d "context_used" = Some context_used ->
     output_built_from node w d)
  /\ ((forall v, v ∈ dict_values (intermediate_results (context w)) ->
                 has_type_tag "llm_response" v = false) ->
      _execute_output node w = (inl (ValueError "No LLM response found for output"), w)).
Proof.
  split.
  - intros d response query context_used Hd Hr Hq Hc. unfold output_built_from.
    destruct (decide (format (node_data node) = Some "json")) as [Hformat|Hformat].
    + eexists. split; [by apply (_execute_output_json _ _ d)|]. by rewrite Hr.
    + eexists. split; [by apply (_execute_output_plain _ _ d)|]. by rewrite Hr.
  - apply _execute_output_no_response.
Qed.

Lemma C3_witness :
  output_built_from text_output two_responses (llm_result "q" "first")
  /\ _execute_output text_output (world_with_results [])
     = (inl (ValueError "No LLM response found for output"), world_with_results []).
Proof.
  split.
  - apply (proj1 (C3_output_uses_earliest_response text_output two_responses)
             (llm_result "q" "first") (PStr "first") (PStr "q") (PBool false));
      [|reflexivity..].
    exists [], [PDict (llm_result "q" "second")].
    split; [reflexivity|]. split; [reflexivity|]. intros v Hv. inversion Hv.
  - apply (proj2 (C3_output_uses_earliest_response text_output (world_with_results []))).
    intros v Hv. inversion Hv.
Defined.

(** ** Computations that leave the state alone *)

Lemma pure_ret {A : Type} (a : A) : pure_comp (mret a).
Proof. done. Qed.

Lemma pure_raise {A : Type} (e : exn) : pure_comp (@raise A e).
Proof. done. Qed.

Lemma pure_bind {A B : Type} (m : M A) (k : A -> M B) :
  pure_comp m -> (forall a, pure_comp (k a)) -> pure_comp (m ≫= k).
Proof.
  intros Hm Hk w. unfold mbind, M_bind. specialize (Hm w).
  destruct (m w) as [[e|a] w']; simpl in *; subst; [done | apply Hk].
Qed.

Lemma pure_getitem d k : pure_comp (getitem d k).
Proof. unfold getitem. destruct (dict_get d k); [apply pure_ret | apply pure_raise]. Qed.

Lemma pure_py_iter v : pure_comp (py_iter v).
Proof. destruct v; done. Qed.

Lemma pure_doc_get doc k dflt : pure_comp (doc_get doc k dflt).
Proof. destruct doc; done. Qed.

Lemma pure_mapM {A B : Type} (f : A -> M B) xs :
  (forall x, pure_comp (f x)) -> pure_comp (mapM f xs).
Proof.
  intros Hf. induction xs as [|x xs IH]; [done|]. simpl.
  apply pure_bind; [done|]. intros y. apply pure_bind; [done|]. intros ys. done.
Qed.

Lemma raises_bind {A B : Type} (m : M A) (k : A -> M B) :
  pure_comp m -> (forall a, always_raises (k a)) -> always_raises (m ≫= k).
Proof.
  intros Hm Hk w. unfold mbind, M_bind. specialize (Hm w).
  destruct (m w) as [[e|a] w']; simpl in *; subst; [by exists e | apply Hk].
Qed.

Lemma raises_raise {A : Type} (e : exn) : always_raises (@raise A e).
Proof. intros w. by exists e. Qed.

Create HintDb pure.
#[local] Hint Resolve pure_ret pure_raise pure_getitem pure_py_iter pure_doc_get : pure.

Section knowledge_and_llm.
Context `{PyRuntime} `{Capabilities}.

Lemma pure_format_document doc : pure_comp (format_document doc).
Proof.
  unfold format_document.
  apply pure_bind; [auto with pure|]. intros filename.
  apply pure_bind; [auto with pure|]. intros content. apply pure_ret.
Qed.

Lemma pure_query_fallback context query_data :
  pure_comp (query_fallback context query_data).
Proof.
  unfold query_fallback. destruct (_ && _); [|apply pure_ret].
  apply pure_bind; [auto with pure|]. intros query. apply pure_ret.
Qed.

Lemma _execute_knowledge_base_skipped node w :
  no_query w ->
  _execute_knowledge_base node w
  = (inr (PDict [("type", PStr "knowledge_base"); ("results", PList []);
                 ("query", PNone); ("status", PStr "skipped")]), w).
Proof.
  intros [Hnone Hinput]. unfold _execute_knowledge_base, query_fallback. unfold_monad.
  by rewrite (first_tagged_none _ _ Hnone), Hinput.
Qed.

(** The arguments of the search when an earlier result holds the query. *)
Lemma _execute_knowledge_base_search node w d query :
  earliest_tagged "user_query" (dict_values (intermediate_results (context w))) d ->
  dict_get d "query" = Some query ->
  let collection_name := str_or (collection (node_data node)) "default" in
  let top_k := int_or (topK (node_data node)) 5 in
  _execute_knowledge_base node w
  = (match vector_service_search (calls w) query collection_name top_k (3 # 10)%Q with
     | inr search_results =>
         inr (PDict [("query", query);
                     ("results", PList (PDict <$> search_results));
                     ("type", PStr "knowledge_base")])
     | inl e => inl e
     end,
     record_call (CallSearch query collection_name top_k (3 # 10)%Q) w).
Proof.
  intros Hd Hq collection_name top_k.
  unfold _execute_knowledge_base, query_fallback, search. unfold_monad.
  rewrite (first_tagged_earliest _ _ _ Hd).
  destruct Hd as (_ & _ & _ & Htag & _).
  rewrite (tagged_not_falsy _ _ Htag). cbn -[is_falsy dict_get].
  rewrite (tagged_not_falsy _ _ Htag), Hq. cbn -[dict_get].
  by destruct (vector_service_search _ _ _ _ _).
Qed.

(** The arguments of the search when the query comes from the payload. *)
Lemma _execute_knowledge_base_search_payload node w query :
  (forall v, v ∈ dict_values (intermediate_results (context w)) ->
             has_type_tag "user_query" v = false) ->
  dict_get (input_data (context w)) "query" = Some query ->
  truthy query = true ->
  let collection_name := str_or (collection (node_data node)) "default" in
  let top_k := int_or (topK (node_data node)) 5 in
  _execute_knowledge_base node w
  = (match vector_service_search (calls w) query collection_name top_k (3 # 10)%Q with
     | inr search_results =>
         inr (PDict [("query", query);
                     ("results", PList (PDict <$> search_results));
                     ("type", PStr "knowledge_base")])
     | inl e => inl e
     end,
     record_call (CallSearch query collection_name top_k (3 # 10)%Q) w).
Proof.
  intros Hnone Hq Ht collection_name top_k.
  unfold _execute_knowledge_base, query_fallback, search, dict_get_default. unfold_monad.
  rewrite (first_tagged_none _ _ Hnone), Hq. simpl. rewrite Ht. simpl.
  by destruct (vector_service_search _ _ _ _ _).
Qed.

Lemma scan_no_query values :
  (forall v, v ∈ values -> has_type_tag "user_query" v = false) ->
  (scan_query_and_knowledge values).1 = None.
Proof.
  unfold scan_query_and_knowledge.
  assert (forall acc, acc.1 = None ->
            (forall v, v ∈ values -> has_type_tag "user_query" v = false) ->
            (foldl (fun '(query_data, knowledge_data) result =>
                      match result with
                      | PDict d =>
                          if eq_str (dict_get d "type") "user_query"
                          then (Some d, knowledge_data)
                          else if eq_str (dict_get d "type") "knowledge_base"
                               then (query_data, Some d)
                               else (query_data, knowledge_data)
                      | _ => (query_data, knowledge_data)
                      end) acc values).1 = None) as Hgen.
  { induction values as [|v values IH]; intros [q k] Hacc Hall; [done|].
    simpl in Hacc. subst q. cbn [foldl].
    assert (has_type_tag "user_query" v = false) as Hv
      by apply Hall, list_elem_of_here.
    apply IH.
    - destruct v as [| | | | | |d]; try done. simpl in Hv. rewrite Hv.
      by destruct (eq_str (dict_get d "type") "knowledge_base").
    - intros v' Hv'. apply Hall. by apply list_elem_of_further. }
  intros Hall. by apply Hgen.
Qed.

Lemma _execute_llm_engine_no_query node w :
  no_query w ->
  _execute_llm_engine node w
  = (inl (ValueError "No query found for LLM processing"), w).
Proof.
  intros [Hnone Hinput]. unfold _execute_llm_engine, query_fallback. unfold_monad.
  pose proof (scan_no_query _ Hnone) as Hscan.
  destruct (scan_query_and_knowledge _) as [query_data knowledge_data].
  simpl in Hscan. subst query_data. by rewrite Hinput.
Qed.

Lemma maxTokens_undeclared data : NodeData_attr data "maxTokens" = None.
Proof. reflexivity. Qed.

(** The llm component raises on every path, and before any call of the
    text generation service. *)
Lemma _execute_llm_engine_raises node : always_raises (_execute_llm_engine node).
Proof.
  unfold _execute_llm_engine. intros w. unfold mbind at 1, M_bind at 1, get_context.
  destruct (scan_query_and_knowledge _) as [query_data knowledge_data].
  apply raises_bind; [apply pure_query_fallback|].
  intros [query_data'|]; [|apply raises_raise].
  destruct (is_falsy _); [apply raises_raise|].
  apply raises_bind.
  { destruct knowledge_data as [knowledge_data|]; [|apply pure_ret].
    destruct (_ && _); [|apply pure_ret].
    apply pure_bind; [auto with pure|]. intros results.
    apply pure_bind; [auto with pure|]. intros docs.
    apply pure_bind; [|intros; apply pure_ret].
    apply pure_mapM, pure_format_document. }
  intros context_text. apply raises_bind; [auto with pure|]. intros query.
  unfold getattr. rewrite maxTokens_undeclared.
  intros w'. eexists. reflexivity.
Qed.

End knowledge_and_llm.

(** ** The driver *)

Lemma keeps_pure {A : Type} (m : M A) : pure_comp m -> keeps_context m.
Proof. intros Hm w. by rewrite Hm. Qed.

Lemma keeps_bind {A B : Type} (m : M A) (k : A -> M B) :
  keeps_context m -> (forall a, keeps_context (k a)) -> keeps_context (m ≫= k).
Proof.
  intros Hm Hk w. unfold mbind, M_bind. specialize (Hm w).
  destruct (m w) as [[e|a] w']; simpl in *; [done|].
  destruct (Hk a w') as [Hc Hr]. by rewrite Hc, Hr.
Qed.

Section driver_properties.
Context `{PyRuntime} `{Capabilities}.

Lemma keeps_search query collection_name top_k threshold :
  keeps_context (search query collection_name top_k threshold).
Proof. done. Qed.

Lemma keeps_generate_response query context model max_tokens use_web_search :
  keeps_context (generate_response query context model max_tokens use_web_search).
Proof. done. Qed.

Lemma keeps__execute_component node : keeps_context (_execute_component node).
Proof.
  unfold _execute_component. repeat destruct (decide _); [| | | |by apply keeps_pure].
  - apply keeps_pure. unfold _execute_user_query.
    apply pure_bind; [done|]. intros context. by destruct (negb _).
  - unfold _execute_knowledge_base.
    apply keeps_bind; [by apply keeps_pure|]. intros context.
    apply keeps_bind; [apply keeps_pure, pure_query_fallback|].
    intros [query_data|]; [|by apply keeps_pure].
    destruct (is_falsy _); [by apply keeps_pure|].
    apply keeps_bind; [apply keeps_pure; auto with pure|]. intros query.
    apply keeps_bind; [apply keeps_search|]. intros search_results.
    apply keeps_pure. apply pure_bind; [auto with pure|]. intros query'. apply pure_ret.
  - intros w. destruct (_execute_llm_engine_raises node w) as [err ->]. done.
  - apply keeps_pure. unfold _execute_output.
    apply pure_bind; [done|]. intros context.
    destruct (first_tagged _ _) as [llm_response|]; [|done].
    destruct (is_falsy _); [done|].
    destruct (decide _).
    + apply pure_bind; [auto with pure|]. intros response.
      apply pure_bind; [auto with pure|]. intros query.
      apply pure_bind; [auto with pure|]. intros context_used. apply pure_ret.
    + apply pure_bind; [auto with pure|]. intros response. apply pure_ret.
Qed.

(** A step that raises leaves the context as it found it. *)
Lemma execute_step_raises node_map started node_id w e w' :
  execute_step node_map started node_id w = (inl e, w') ->
  context w' = context w.
Proof.
  unfold execute_step, lookup_node. unfold_monad.
  destruct (node_map !! node_id) as [node|]; [|by intros [= <- <-]].
  pose proof (keeps__execute_component node w) as [Hc _].
  destruct (_execute_component node w) as [[e'|result] w1]; simpl in *.
  - by intros [= <- <-].
  - discriminate.
Qed.

(** A step that completes appends one log entry, for its node. *)
Lemma execute_step_returns node_map started node_id w w' :
  execute_step node_map started node_id w = (inr (), w') ->
  exists step,
    step_of node_id step
    /\ execution_log (context w') = execution_log (context w) ++ [step]
    /\ input_data (context w') = input_data (context w)
    /\ start_time (context w') = start_time (context w).
Proof.
  unfold execute_step, lookup_node. unfold_monad.
  destruct (node_map !! node_id) as [node|]; [|discriminate].
  pose proof (keeps__execute_component node w) as [Hc _].
  destruct (_execute_component node w) as [[e'|result] w1]; simpl in *; [discriminate|].
  intros [= <-]. simpl. rewrite Hc. eexists. split; [|done].
  by eexists _, _, _.
Qed.

Lemma execute_steps_app node_map started order1 order2 w :
  execute_steps node_map started (order1 ++ order2) w
  = match execute_steps node_map started order1 w with
    | (inr _, w1) => execute_steps node_map started order2 w1
    | (inl e, w1) => (inl e, w1)
    end.
Proof.
  revert w. induction order1 as [|node_id order1 IH]; intros w; [done|].
  cbn [app execute_steps]. unfold mbind, M_bind.
  destruct (execute_step node_map started node_id w) as [[e|[]] w1]; [done|].
  apply IH.
Qed.

(** The log after a run of completed steps: one entry per node, in order. *)
Lemma execute_steps_returns node_map started order :
  forall w w',
    execute_steps node_map started order w = (inr (), w') ->
    exists steps,
      Forall2 step_of order steps
      /\ execution_log (context w') = execution_log (context w) ++ steps
      /\ input_data (context w') = input_data (context w)
      /\ start_time (context w') = start_time (context w).
Proof.
  induction order as [|node_id order IH]; intros w w' Hrun.
  - injection Hrun as <-. exists []. by rewrite app_nil_r.
  - cbn [execute_steps] in Hrun. unfold mbind, M_bind in Hrun.
    destruct (execute_step node_map started node_id w) as [[e|[]] w1] eqn:Hstep;
      [discriminate|].
    destruct (execute_step_returns _ _ _ _ _ Hstep) as (step & Hs & Hlog & Hin & Hst).
    destruct (IH _ _ Hrun) as (steps & Hss & Hlog' & Hin' & Hst').
    exists (step :: steps). split; [by constructor|].
    rewrite Hlog', Hlog, <- app_assoc. split; [done|]. split; congruence.
Qed.

(** A run that raises does so at a first node, after the nodes before it
    have completed. *)
Lemma execute_steps_raises node_map started order :
  forall w e w',
    execute_steps node_map started order w = (inl e, w') ->
    exists before node_id after w1,
      order = before ++ node_id :: after
      /\ execute_steps node_map started before w = (inr (), w1)
      /\ execute_step node_map started node_id w1 = (inl e, w').
Proof.
  induction order as [|node_id order IH]; intros w e w' Hrun; [discriminate|].
  cbn [execute_steps] in Hrun. unfold mbind, M_bind in Hrun.
  destruct (execute_step node_map started node_id w) as [[e1|[]] w1] eqn:Hstep.
  - injection Hrun as <- <-. by exists [], node_id, order, w.
  - destruct (IH _ _ _ Hrun) as (before & node_id' & after & w2 & -> & Hbefore & Hfail).
    exists (node_id :: before), node_id', after, w2. split; [done|]. split; [|done].
    cbn [execute_steps]. unfold mbind, M_bind. by rewrite Hstep.
Qed.

(** What [execute_workflow] returns when the first failing step is
    [node_id]. *)
Lemma execute_workflow_step_raises nodes edges input_data before node_id after w1 w2 e :
  is_valid (validate_workflow nodes edges) = true ->
  execution_order (validate_workflow nodes edges) = before ++ node_id :: after ->
  execute_steps (make_node_map nodes) (time_time 0) before (initial_world input_data)
  = (inr (), w1) ->
  execute_step (make_node_map nodes) (time_time 0) node_id w1 = (inl e, w2) ->
  exists steps,
    Forall2 step_of before steps
    /\ execution_log (context w1) = steps
    /\ execute_workflow_traced nodes edges input_data
       = (Returned
            (PDict [("error", PStr (exn_str e));
                    ("execution_log",
                     PDict [("steps", PList steps);
                            ("total_steps", PInt (Z.of_nat (length before)));
                            ("error", PStr (exn_str e))]);
                    ("execution_time",
                     PInt (millis (time_time (clock_reads w2)) (time_time 0)));
                    ("status", PStr "failed")]), w2).
Proof.
  intros Hvalid Horder Hbefore Hfail.
  destruct (execute_steps_returns _ _ _ _ _ Hbefore) as (steps & Hsteps & Hlog & _ & Hst).
  simpl in Hlog. exists steps. split; [done|]. split; [done|].
  pose proof (execute_step_raises _ _ _ _ _ _ Hfail) as Hctx.
  unfold execute_workflow_traced, execute_body. rewrite Hvalid, Horder. simpl.
  unfold mbind at 1, M_bind at 1. rewrite execute_steps_app, Hbefore.
  cbn [execute_steps]. unfold mbind at 1, M_bind at 1. rewrite Hfail.
  unfold failed_result. rewrite Hctx, Hlog, Hst. simpl.
  by rewrite (Forall2_length _ _ _ Hsteps).
Qed.

Lemma execute_workflow_invalid nodes edges input_data :
  is_valid (validate_workflow nodes edges) = false ->
  let message :=
    "Invalid workflow: " +:+ String.concat ", " (errors (validate_workflow nodes edges)) in
  execute_workflow_traced nodes edges input_data
  = (Returned
       (PDict [("error", PStr message);
               ("execution_log",
                PDict [("steps", PList []); ("total_steps", PInt 0);
                       ("error", PStr message)]);
               ("execution_time", PInt (millis (time_time 1) (time_time 0)));
               ("status", PStr "failed")]),
     initial_world input_data).
Proof.
  intros Hvalid message. unfold execute_workflow_traced, execute_body.
  by rewrite Hvalid.
Qed.

Lemma execute_workflow_returns nodes edges input_data :
  exists result, execute_workflow nodes edges input_data = Returned result.
Proof.
  unfold execute_workflow, execute_workflow_traced.
  destruct (execute_body _ _ _ _) as [[e|result] w]; eauto.
Qed.

End driver_properties.

(** C2.  [execute_workflow] always returns.  When validation passes, the
    steps of the nodes [before] complete and the step of [node_id] raises
    [e], the run stops there: the state left behind is the state in which
    [e] was raised, and the result has status ["failed"], the text of [e]
    as its error, the log entries of the nodes [before] and nothing more as
    its steps, and an execution time in milliseconds.  Every run whose loop
    raises has such a first failing node. *)
Theorem C2_failure_is_returned `{PyRuntime} `{Capabilities}
  (nodes : list WorkflowNode) (edges : list WorkflowEdge) (input_data : pydict) :
  let v := validate_workflow nodes edges in
  let w0 := initial_world input_data in
  (exists result, execute_workflow nodes edges input_data = Returned result)
  /\ (forall before node_id after w1 w2 e,
        is_valid v = true ->
        execution_order v = before ++ node_id :: after ->
        execute_steps (make_node_map nodes) (time_time 0) before w0 = (inr (), w1) ->
        execute_step (make_node_map nodes) (time_time 0) node_id w1 = (inl e, w2) ->
        exists steps,
          Forall2 step_of before steps
          /\ execute_workflow_traced nodes edges input_data
             = (Returned
                  (PDict [("error", PStr (exn_str e));
                          ("execution_log",
                           PDict [("steps", PList steps);
                                  ("total_steps", PInt (Z.of_nat (length before)));
                                  ("error", PStr (exn_str e))]);
                          ("execution_time",
                           PInt (millis (time_time (clock_reads w2)) (time_time 0)));
                          ("status", PStr "failed")]), w2))
  /\ (forall e w2,
        execute_steps (make_node_map nodes) (time_time 0) (execution_order v) w0
        = (inl e, w2) ->
        exists before node_id after w1,
          execution_order v = before ++ node_id :: after
          /\ execute_steps (make_node_map nodes) (time_time 0) before w0 = (inr (), w1)
          /\ execute_step (make_node_map nodes) (time_time 0) node_id w1 = (inl e, w2)).
Proof.
  intros v w0. split; [apply execute_workflow_returns|]. split.
  - intros before node_id after w1 w2 e Hvalid Horder Hbefore Hfail.
    destruct (execute_workflow_step_raises _ _ _ _ _ _ _ _ _ Hvalid Horder Hbefore Hfail)
      as (steps & Hsteps & _ & Hrun).
    by exists steps.
  - intros e w2. apply execute_steps_raises.
Qed.

Lemma C2_witness :
  exists steps w2,
    length steps = 2
    /\ execute_workflow_traced chain_nodes chain_edges [("query", PStr "hi")]
       = (Returned
            (PDict [("error", PStr "'NodeData' object has no attribute 'maxTokens'");
                    ("execution_log",
                     PDict [("steps", PList steps);
                            ("total_steps", PInt 2);
                            ("error",
                             PStr "'NodeData' object has no attribute 'maxTokens'")]);
                    ("execution_time", PInt 3);
                    ("status", PStr "failed")]), w2).
Proof.
  destruct (C2_failure_is_returned chain_nodes chain_edges [("query", PStr "hi")])
    as (_ & Hfail & _).
  edestruct (Hfail ["input-id"; "knowledge-id"] "llm-id" ["output-id"])
    as (steps & Hsteps & Hrun).
  - vm_compute. reflexivity.
  - vm_compute. reflexivity.
  - vm_compute. reflexivity.
  - vm_compute. reflexivity.
  - eexists steps, _. split; [by rewrite <- (Forall2_length _ _ _ Hsteps)|].
    exact Hrun.
Defined.

(** C4.  When validation fails, [execute_workflow] returns a result with
    status ["failed"] whose error is ["Invalid workflow: "] followed by the
    validator's errors, joined by [", "], and whose log has no steps; the
    state it leaves behind is the initial one: no node has run, no result
    is stored and no service has been called. *)
Theorem C4_invalid_workflow_runs_nothing `{PyRuntime} `{Capabilities}
  (nodes : list WorkflowNode) (edges : list WorkflowEdge) (input_data : pydict) :
  is_valid (validate_workflow nodes edges) = false ->
  let message :=
    "Invalid workflow: " +:+ String.concat ", " (errors (validate_workflow nodes edges)) in
  execute_workflow_traced nodes edges input_data
  = (Returned
       (PDict [("error", PStr message);
               ("execution_log",
                PDict [("steps", PList []); ("total_steps", PInt 0);
                       ("error", PStr message)]);
               ("execution_time", PInt (millis (time_time 1) (time_time 0)));
               ("status", PStr "failed")]),
     {| context := {| input_data := input_data; intermediate_results := [];
                      execution_log := []; start_time := time_time 0 |};
        clock_reads := 1; calls := [] |}).
Proof. apply execute_workflow_invalid. Qed.

Lemma C4_witness :
  exists message,
    execute_workflow [] [] []
    = Returned
        (PDict [("error", PStr message);
                ("execution_log",
                 PDict [("steps", PList []); ("total_steps", PInt 0);
                        ("error", PStr message)]);
                ("execution_time", PInt 1);
                ("status", PStr "failed")]).
Proof.
  eexists. unfold execute_workflow.
  rewrite (C4_invalid_workflow_runs_nothing [] [] []); reflexivity.
Defined.

Section runs.
Context `{PyRuntime} `{Capabilities}.

Lemma execute_step_component_raises node_map started node_id node w e w' :
  node_map !! node_id = Some node ->
  _execute_component node w = (inl e, w') ->
  execute_step node_map started node_id w = (inl e, w').
Proof.
  intros Hnode Hrun. unfold execute_step, lookup_node. unfold_monad.
  by rewrite Hnode, Hrun.
Qed.

Lemma _execute_user_query_returns node w query :
  dict_get (input_data (context w)) "query" = Some query ->
  truthy query = true ->
  _execute_user_query node w
  = (inr (PDict [("query", query); ("type", PStr "user_query")]), w).
Proof.
  intros Hq Ht. unfold _execute_user_query, dict_get_default. unfold_monad.
  by rewrite Hq; simpl; rewrite Ht.
Qed.

Lemma execute_step_component_returns node_map started node_id node w result w' :
  node_map !! node_id = Some node ->
  _execute_component node w = (inr result, w') ->
  execute_step node_map started node_id w
  = (inr (), after_step node_id node result started w').
Proof.
  intros Hnode Hrun. unfold execute_step, lookup_node. unfold_monad.
  by rewrite Hnode, Hrun.
Qed.

Lemma make_node_map_lookup_None nodes k :
  make_node_map nodes !! k = None <-> k ∉ node_id <$> nodes.
Proof.
  unfold make_node_map.
  assert (forall node_map : gmap string WorkflowNode,
            foldl (fun node_map node => <[node_id node := node]> node_map) node_map nodes
              !! k = None
            <-> node_map !! k = None /\ k ∉ node_id <$> nodes) as Hgen.
  { induction nodes as [|node nodes IH]; intros node_map.
    - cbn [foldl]. rewrite fmap_nil. set_solver.
    - cbn [foldl]. rewrite IH, fmap_cons, lookup_insert_None, not_elem_of_cons.
      naive_solver. }
  rewrite Hgen, lookup_empty. naive_solver.
Qed.

(** The loop cannot get past an id that is not in the node map. *)
Lemma execute_steps_missing_node node_map started order k :
  k ∈ order -> node_map !! k = None ->
  forall w, exists e w', execute_steps node_map started order w = (inl e, w').
Proof.
  intros Hk Hnone. induction order as [|node_id order IH]; intros w.
  - by apply elem_of_nil in Hk.
  - cbn [execute_steps]. unfold mbind, M_bind.
    destruct (execute_step node_map started node_id w) as [[e|[]] w1] eqn:Hstep;
      [by eauto|].
    apply elem_of_cons in Hk as [<-|Hk]; [|by apply IH].
    unfold execute_step, lookup_node in Hstep. unfold_monad.
    by rewrite Hnone in Hstep.
Qed.

Lemma execute_workflow_missing_node nodes edges input_data k :
  is_valid (validate_workflow nodes edges) = true ->
  k ∈ execution_order (validate_workflow nodes edges) ->
  k ∉ node_id <$> nodes ->
  status_of (execute_workflow nodes edges input_data) = Some (PStr "failed").
Proof.
  intros Hvalid Hk Hnone. apply make_node_map_lookup_None in Hnone.
  unfold execute_workflow, execute_workflow_traced, execute_body.
  rewrite Hvalid. simpl. unfold mbind at 1, M_bind at 1.
  destruct (execute_steps_missing_node _ (time_time 0) _ _ Hk Hnone
              (initial_world input_data)) as (e & w' & ->).
  done.
Qed.

End runs.

(** C5, the llm half fails.  The llm component reads [node.data.maxTokens],
    which the schema does not declare, while it evaluates the arguments of
    the call: on every state it raises and leaves the trace of service calls
    as it found it, so text generation is never invoked.  On the end-to-end
    example of the specification the run therefore fails at the llm node,
    after the input node alone, with no service call made. *)
Theorem C5_llm_node_raises_before_generation `{PyRuntime} `{Capabilities} :
  (forall node w, exists e, _execute_llm_engine node w = (inl e, w))
  /\ exists step w,
       execute_workflow_traced end_to_end_nodes end_to_end_edges [("query", PStr "hi")]
       = (Returned
            (PDict [("error", PStr "'NodeData' object has no attribute 'maxTokens'");
                    ("execution_log",
                     PDict [("steps", PList [step]);
                            ("total_steps", PInt 1);
                            ("error",
                             PStr "'NodeData' object has no attribute 'maxTokens'")]);
                    ("execution_time",
                     PInt (millis (time_time (clock_reads w)) (time_time 0)));
                    ("status", PStr "failed")]), w)
       /\ step_of "1" step
       /\ calls w = [].
Proof.
  split; [intros node w; apply _execute_llm_engine_raises|].
  assert (validate_workflow end_to_end_nodes end_to_end_edges
          = {| is_valid := true; errors := []; warnings := [];
               execution_order := ["1"; "2"; "3"] |}) as Hv by (vm_compute; reflexivity).
  edestruct (execute_workflow_step_raises end_to_end_nodes end_to_end_edges
               [("query", PStr "hi")] ["1"] "2" ["3"]) as (steps & Hsteps & Hlog & Hrun).
  - by rewrite Hv.
  - by rewrite Hv.
  - reflexivity.
  - reflexivity.
  - apply Forall2_cons_inv_l in Hsteps as (step & steps' & Hstep & Hnil & ->).
    apply Forall2_nil_inv_l in Hnil as ->.
    eexists step, _. split; [exact Hrun|]. split; [done|]. reflexivity.
Qed.

(** C7.  In a state where no result is tagged user_query and the payload
    has no usable query, a knowledge node returns the skipped result and
    raises nothing, and an llm node raises
    [ValueError("No query found for LLM processing")].  When that state is
    reached in a run, after the nodes [before] have completed, and the next
    id of the execution order maps to the llm node, the run returns status
    ["failed"] with that message as its error and, as its log, the steps of
    the nodes [before] and nothing more. *)
Theorem C7_no_query_skips_knowledge_fails_llm `{PyRuntime} `{Capabilities}
  (node : WorkflowNode) (w : world) :
  no_query w ->
  _execute_knowledge_base node w
  = (inr (PDict [("type", PStr "knowledge_base"); ("results", PList []);
                 ("query", PNone); ("status", PStr "skipped")]), w)
  /\ _execute_llm_engine node w
     = (inl (ValueError "No query found for LLM processing"), w)
  /\ forall nodes edges input_data before node_id after,
       is_valid (validate_workflow nodes edges) = true ->
       execution_order (validate_workflow nodes edges) = before ++ node_id :: after ->
       execute_steps (make_node_map nodes) (time_time 0) before (initial_world input_data)
       = (inr (), w) ->
       make_node_map nodes !! node_id = Some node ->
       node_type node = "llm" ->
       exists steps,
         Forall2 step_of before steps
         /\ execute_workflow_traced nodes edges input_data
            = (Returned
                 (PDict [("error", PStr "No query found for LLM processing");
                         ("execution_log",
                          PDict [("steps", PList steps);
                                 ("total_steps", PInt (Z.of_nat (length before)));
                                 ("error", PStr "No query found for LLM processing")]);
                         ("execution_time",
                          PInt (millis (time_time (clock_reads w)) (time_time 0)));
                         ("status", PStr "failed")]), w).
Proof.
  intros Hno. split; [by apply _execute_knowledge_base_skipped|].
  split; [by apply _execute_llm_engine_no_query|].
  intros nodes edges input_data before node_id after Hvalid Horder Hbefore Hnode Htype.
  assert (execute_step (make_node_map nodes) (time_time 0) node_id w
          = (inl (ValueError "No query found for LLM processing"), w)) as Hfail.
  { apply (execute_step_component_raises _ _ _ node); [done|].
    unfold _execute_component, USER_QUERY, KNOWLEDGE_BASE, LLM_ENGINE.
    rewrite Htype. simpl. by apply _execute_llm_engine_no_query. }
  destruct (execute_workflow_step_raises _ _ _ _ _ _ _ _ _ Hvalid Horder Hbefore Hfail)
    as (steps & Hsteps & _ & Hrun).
  by exists steps.
Qed.

Lemma C7_witness :
  _execute_knowledge_base (mk_node "a" "llm" (mk_data (Some "x") None None None))
    (initial_world [])
  = (inr (PDict [("type", PStr "knowledge_base"); ("results", PList []);
                 ("query", PNone); ("status", PStr "skipped")]), initial_world [])
  /\ execute_workflow shadowed_nodes [] []
     = Returned
         (PDict [("error", PStr "No query found for LLM processing");
                 ("execution_log",
                  PDict [("steps", PList []); ("total_steps", PInt 0);
                         ("error", PStr "No query found for LLM processing")]);
                 ("execution_time", PInt 1);
                 ("status", PStr "failed")]).
Proof.
  destruct (C7_no_query_skips_knowledge_fails_llm
              (mk_node "a" "llm" (mk_data (Some "x") None None None)) (initial_world []))
    as (Hkb & _ & Hrun).
  - split; [|reflexivity]. intros v Hv. inversion Hv.
  - split; [exact Hkb|].
    destruct (Hrun shadowed_nodes [] [] [] "a" ["b"]) as (steps & Hsteps & Htraced).
    + vm_compute. reflexivity.
    + vm_compute. reflexivity.
    + reflexivity.
    + vm_compute. reflexivity.
    + reflexivity.
    + apply Forall2_nil_inv_l in Hsteps as ->.
      unfold execute_workflow. rewrite Htraced. reflexivity.
Defined.

(** ** Dangling edge targets *)

Lemma build_graph_not_node nodes edges k :
  k ∉ node_id <$> nodes -> build_graph nodes edges !! k = None.
Proof.
  intros Hk. unfold build_graph.
  rewrite add_edges_lookup, init_graph_lookup, lookup_empty.
  by rewrite decide_False.
Qed.

(** C10.  Validation accepts [dangling_nodes] with [dangling_edges] although
    the target ["x"] of the edge is not the id of a node, and ["x"] is in
    the execution order it returns.  Executing the workflow with a usable
    query runs the input node, then fails on the lookup of ["x"] in the node
    map and returns status ["failed"] with [str(KeyError("x"))] as error.
    In general: an id that is not a node never becomes a key of the
    adjacency list, so edges leaving it are dropped; and whenever a valid
    workflow has such an id in its execution order, [execute_workflow]
    returns status ["failed"]. *)
Theorem C10_dangling_target_passes_validation `{PyRuntime} `{Capabilities} :
  (is_valid (validate_workflow dangling_nodes dangling_edges) = true
   /\ execution_order (validate_workflow dangling_nodes dangling_edges)
      = ["1"; "x"; "2"; "3"]
   /\ (exists edge, edge ∈ dangling_edges /\ edge_target edge = "x")
   /\ "x" ∉ node_id <$> dangling_nodes)
  /\ (forall input_data query,
        dict_get input_data "query" = Some query -> truthy query = true ->
        exists step w,
          execute_workflow_traced dangling_nodes dangling_edges input_data
          = (Returned
               (PDict [("error", PStr (py_repr "x"));
                       ("execution_log",
                        PDict [("steps", PList [step]);
                               ("total_steps", PInt 1);
                               ("error", PStr (py_repr "x"))]);
                       ("execution_time",
                        PInt (millis (time_time (clock_reads w)) (time_time 0)));
                       ("status", PStr "failed")]), w)
          /\ step_of "1" step)
  /\ (forall nodes edges k,
        k ∉ node_id <$> nodes -> build_graph nodes edges !! k = None)
  /\ (forall nodes edges input_data k,
        is_valid (validate_workflow nodes edges) = true ->
        k ∈ execution_order (validate_workflow nodes edges) ->
        k ∉ node_id <$> nodes ->
        status_of (execute_workflow nodes edges input_data) = Some (PStr "failed")).
Proof.
  assert (validate_workflow dangling_nodes dangling_edges
          = {| is_valid := true; errors := []; warnings := [];
               execution_order := ["1"; "x"; "2"; "3"] |}) as Hv by (vm_compute; reflexivity).
  split; [|split; [|split]].
  - rewrite Hv. split; [done|]. split; [done|]. split.
    + exists (mk_edge "1" "x"). split; [apply list_elem_of_here | done].
    + apply (bool_decide_unpack _). vm_compute. exact I.
  - intros input_data query Hq Ht.
    edestruct (execute_workflow_step_raises dangling_nodes dangling_edges
                 input_data ["1"] "x" ["2"; "3"]) as (steps & Hsteps & Hlog & Hrun).
    + by rewrite Hv.
    + by rewrite Hv.
    + cbn [execute_steps]. unfold mbind, M_bind.
      erewrite (execute_step_component_returns _ _ "1"
                  (mk_node "1" "input" (mk_data None None None (Some 5%Z))));
        [reflexivity | by vm_compute |].
      by apply _execute_user_query_returns.
    + unfold execute_step, lookup_node, mbind, M_bind.
      replace (make_node_map dangling_nodes !! "x") with (@None WorkflowNode)
        by (vm_compute; reflexivity).
      reflexivity.
    + apply Forall2_cons_inv_l in Hsteps as (step & steps' & Hstep & Hnil & ->).
      apply Forall2_nil_inv_l in Hnil as ->.
      eexists step, _. split; [exact Hrun | done].
  - apply build_graph_not_node.
  - apply execute_workflow_missing_node.
Qed.

Lemma C10_witness :
  exists step,
    execute_workflow dangling_nodes dangling_edges [("query", PStr "hi")]
    = Returned
        (PDict [("error", PStr "'x'");
                ("execution_log",
                 PDict [("steps", PList [step]);
                        ("total_steps", PInt 1);
                        ("error", PStr "'x'")]);
                ("execution_time", PInt 2);
                ("status", PStr "failed")]).
Proof.
  destruct C10_dangling_target_passes_validation as (_ & Hrun & _).
  destruct (Hrun [("query", PStr "hi")] (PStr "hi")) as (step & w & Htraced & _).
  - reflexivity.
  - reflexivity.
  - exists step. unfold execute_workflow.
    rewrite Htraced. cbn [fst].
    replace w with
      (execute_workflow_traced dangling_nodes dangling_edges [("query", PStr "hi")]).2
      by (by rewrite Htraced).
    reflexivity.
Defined.

(** * Further properties *)

(** ** What the traversal reaches *)

Section traversal_invariants.
Variable adj : string -> list string.

Lemma bfs_run_extends s r : bfs_run adj s r -> s.1.2 `prefix_of` r.2.
Proof.
  induction 1 as [|s s' r Hstep _ IH]; [done|].
  destruct Hstep; simpl in *; [done|].
  etrans; [|exact IH]. by apply prefix_app_r.
Qed.

Lemma bfs_run_NoDup s r :
  bfs_run adj s r -> s.1.1 = list_to_set s.1.2 -> NoDup s.1.2 -> NoDup r.2.
Proof.
  induction 1 as [|s s' r Hstep _ IH]; [done|].
  intros Hv Hnd. destruct Hstep as [|visited order current queue Hcur]; simpl in *;
    [by apply IH|].
  apply IH.
  - rewrite list_to_set_app_L. simpl. set_solver.
  - apply NoDup_app. split; [done|]. split; [|apply NoDup_singleton].
    intros x Hx. subst visited. set_solver.
Qed.

(** Whatever is in the order or on the queue can be reached from [root]. *)
Lemma bfs_run_sound root s r :
  bfs_run adj s r ->
  (forall x, x ∈ s.1.2 \/ x ∈ s.2 -> rtc (fun a b => b ∈ adj a) root x) ->
  forall x, x ∈ r.2 -> rtc (fun a b => b ∈ adj a) root x.
Proof.
  induction 1 as [|s s' r Hstep _ IH]; [by intros Hinv x Hx; apply Hinv; left|].
  intros Hinv. apply IH.
  destruct Hstep as [|visited order current queue Hcur]; simpl in *.
  - intros x [Hx|Hx]; apply Hinv; [by left | right; by apply list_elem_of_further].
  - intros x [Hx|Hx].
    + apply elem_of_app in Hx as [Hx|Hx]; [apply Hinv; by left|].
      apply list_elem_of_singleton in Hx as ->. apply Hinv. right. apply list_elem_of_here.
    + apply elem_of_app in Hx as [Hx|Hx]; [apply Hinv; right; by apply list_elem_of_further|].
      apply list_elem_of_filter in Hx as [_ Hx].
      eapply rtc_r; [|exact Hx]. apply Hinv. right. apply list_elem_of_here.
Qed.

(** The neighbours of a visited node are visited or queued; when the queue
    is empty the visited set is closed. *)
Lemma bfs_run_closed s r :
  bfs_run adj s r ->
  (forall a b, a ∈ s.1.1 -> b ∈ adj a -> b ∈ s.1.1 \/ b ∈ s.2) ->
  (forall x, x ∈ s.1.1 \/ x ∈ s.2 -> x ∈ r.1)
  /\ (forall a b, a ∈ r.1 -> b ∈ adj a -> b ∈ r.1).
Proof.
  induction 1 as [visited order|s s' r Hstep _ IH].
  - simpl. intros Hinv. split.
    + intros x [Hx|Hx]; [done | by apply elem_of_nil in Hx].
    + intros a b Ha Hb. destruct (Hinv a b Ha Hb) as [?|Hq]; [done|].
      by apply elem_of_nil in Hq.
  - intros Hinv.
    destruct Hstep as [visited order current queue Hcur
                      |visited order current queue Hcur]; simpl in *.
    + destruct IH as [IH1 IH2].
      * intros a b Ha Hb. destruct (Hinv a b Ha Hb) as [?|Hq]; [by left|].
        apply elem_of_cons in Hq as [->|Hq]; [by left | by right].
      * split; [|done]. intros x [Hx|Hx]; [apply IH1; by left|].
        apply elem_of_cons in Hx as [->|Hx]; apply IH1; [by left | by right].
    + destruct IH as [IH1 IH2].
      * intros a b Ha Hb.
        destruct (decide (b ∈ visited ∪ {[current]})) as [?|Hnew]; [by left|].
        right. apply elem_of_app. apply elem_of_union in Ha as [Ha|Ha].
        -- destruct (Hinv a b Ha Hb) as [?|Hq]; [set_solver|].
           apply elem_of_cons in Hq as [->|Hq]; [set_solver | by left].
        -- apply elem_of_singleton in Ha as ->. right.
           by apply list_elem_of_filter.
      * split; [|done]. intros x [Hx|Hx].
        -- apply IH1. left. set_solver.
        -- apply elem_of_cons in Hx as [->|Hx]; apply IH1.
           ++ left. set_solver.
           ++ right. apply elem_of_app. by left.
Qed.

End traversal_invariants.

Lemma adjacency_edge_step nodes edges s t :
  t ∈ adjacency nodes edges s <-> edge_step nodes edges s t.
Proof.
  unfold adjacency, edge_step, targets_of. destruct (decide _) as [Hs|Hs].
  - rewrite list_elem_of_fmap. split.
    + intros (edge & -> & Hedge). apply list_elem_of_filter in Hedge as [Hsrc Hedge].
      split; [done|]. by exists edge.
    + intros (_ & edge & Hedge & Hsrc & Htgt). exists edge. split; [done|].
      by apply list_elem_of_filter.
  - split; [by intros ?%elem_of_nil | by intros [? _]].
Qed.

Lemma has_type_find nodes :
  has_type "input" nodes ->
  exists input_node,
    find (fun node => bool_decide (node_type node = USER_QUERY)) nodes = Some input_node
    /\ node_type input_node = "input" /\ input_node ∈ nodes.
Proof.
  intros (node & Hnode & Htype).
  destruct (find _ nodes) as [input_node|] eqn:Hfind.
  - exists input_node. split; [done|]. apply find_some in Hfind as [Hin Ht].
    apply bool_decide_eq_true in Ht. split; [done | by apply list_elem_of_In].
  - pose proof (find_none _ _ Hfind node) as Hn. rewrite bool_decide_eq_false in Hn.
    destruct Hn; [by apply list_elem_of_In | done].
Qed.

Lemma find_first_input_node nodes input_node :
  find (fun node => bool_decide (node_type node = USER_QUERY)) nodes = Some input_node ->
  first_input_node nodes input_node.
Proof.
  induction nodes as [|node nodes IH]; [done|]. simpl.
  destruct (bool_decide (node_type node = USER_QUERY)) eqn:Ht.
  - intros [= <-]. apply bool_decide_eq_true in Ht.
    exists [], nodes. split; [done|]. split; [done|]. by intros ? ?%elem_of_nil.
  - intros Hfind. apply bool_decide_eq_false in Ht.
    destruct (IH Hfind) as (before & after & -> & Hin & Hbefore).
    exists (node :: before), after. split; [done|]. split; [done|].
    intros node' [->|Hn]%elem_of_cons; [done | by apply Hbefore].
Qed.

(** The reached part of the execution order. *)
Lemma resolve_order_reached nodes edges input_node :
  find (fun node => bool_decide (node_type node = USER_QUERY)) nodes = Some input_node ->
  exists reached,
    _determine_execution_order nodes edges = reached ++ unreached nodes reached
    /\ head reached = Some (node_id input_node)
    /\ NoDup reached
    /\ forall x, x ∈ reached <-> reachable nodes edges (node_id input_node) x.
Proof.
  intros Hfind.
  destruct (resolve_order_bfs nodes edges input_node Hfind)
    as (visited & order & Hrun & Heq).
  exists order. split; [done|].
  pose proof (bfs_run_visited _ _ _ Hrun eq_refl) as Hv. simpl in Hv.
  split; [|split; [|split]].
  - inversion Hrun as [|s s' r Hstep Hrest]; subst.
    inversion Hstep as [? ? ? ? Hcur|? ? ? ? Hcur]; subst; [set_solver|].
    pose proof (bfs_run_extends _ _ _ Hrest) as [suffix Hsuffix].
    simpl in Hsuffix. by rewrite Hsuffix.
  - apply (bfs_run_NoDup _ _ _ Hrun); [done | apply NoDup_nil_2].
  - intros Hx. unfold reachable.
    eapply rtc_subrel; [intros a b; apply adjacency_edge_step|].
    apply (bfs_run_sound _ _ _ _ Hrun); [|done].
    simpl. intros y [Hy|Hy]; [by apply elem_of_nil in Hy|].
    by apply list_elem_of_singleton in Hy as ->.
  - intros Hx.
    destruct (bfs_run_closed _ _ _ Hrun) as [Hroot Hclosed]; [set_solver|].
    simpl in *. apply (elem_of_list_to_set (C:=gset string)). rewrite <- Hv.
    revert x Hx. apply (rtc_ind_r (fun x => x ∈ visited)).
    + apply Hroot. right. apply list_elem_of_here.
    + intros y z _ Hstep Hy. apply (Hclosed y); [done|]. by apply adjacency_edge_step.
Qed.

(** The execution order begins with the ids that can be reached from the
    first input node along edges that leave nodes: each of them once, the
    input node first.  The ids of the nodes that cannot be reached follow. *)
Theorem order_reaches_exactly_the_reachable nodes edges input_node :
  first_input_node nodes input_node ->
  exists reached,
    _determine_execution_order nodes edges
    = reached ++ (node_id <$> filter (fun node => node_id node ∉ reached) nodes)
    /\ head reached = Some (node_id input_node)
    /\ NoDup reached
    /\ forall x, x ∈ reached <-> reachable nodes edges (node_id input_node) x.
Proof.
  intros Hfirst. apply first_input_node_find in Hfirst.
  exact (resolve_order_reached nodes edges input_node Hfirst).
Qed.

Lemma order_reaches_exactly_the_reachable_witness :
  exists reached,
    _determine_execution_order dangling_nodes dangling_edges
    = reached ++ (node_id <$> filter (fun node => node_id node ∉ reached) dangling_nodes)
    /\ head reached = Some "1"
    /\ NoDup reached
    /\ forall x, x ∈ reached <-> reachable dangling_nodes dangling_edges "1" x.
Proof.
  apply (order_reaches_exactly_the_reachable dangling_nodes dangling_edges
           (mk_node "1" "input" (mk_data None None None (Some 5%Z)))).
  exists [], (tail dangling_nodes). split; [reflexivity|]. split; [reflexivity|].
  intros node Hnode. inversion Hnode.
Defined.

Lemma resolve_order_covers nodes edges node :
  has_type "input" nodes ->
  node ∈ nodes ->
  node_id node ∈ _determine_execution_order nodes edges.
Proof.
  intros Hinput Hnode.
  destruct (has_type_find nodes Hinput) as (input_node & Hfind & _).
  destruct (resolve_order_reached nodes edges input_node Hfind) as (reached & -> & _).
  apply elem_of_app. destruct (decide (node_id node ∈ reached)) as [?|Hnot]; [by left|].
  right. unfold unreached. apply list_elem_of_fmap_2. by apply list_elem_of_filter.
Qed.

(** When some node has type input, the id of every node is in the execution
    order: no node is left out, reached or not. *)
Theorem order_covers_every_node nodes edges node :
  has_type "input" nodes ->
  node ∈ nodes ->
  node_id node ∈ _determine_execution_order nodes edges.
Proof. apply resolve_order_covers. Qed.

Lemma order_covers_every_node_witness :
  "3" ∈ _determine_execution_order dangling_nodes dangling_edges.
Proof.
  apply (order_covers_every_node dangling_nodes dangling_edges
           (mk_node "3" "output" (mk_data None None (Some "text") (Some 5%Z)))).
  - exists (mk_node "1" "input" (mk_data None None None (Some 5%Z))).
    split; [apply list_elem_of_here | reflexivity].
  - apply list_elem_of_further, list_elem_of_further, list_elem_of_here.
Defined.

Lemma reachable_is_node nodes edges root x :
  root ∈ node_id <$> nodes ->
  (forall edge, edge ∈ edges -> edge_target edge ∈ node_id <$> nodes) ->
  reachable nodes edges root x -> x ∈ node_id <$> nodes.
Proof.
  intros Hroot Htargets Hx. revert x Hx.
  apply (rtc_ind_r (fun x => x ∈ node_id <$> nodes)); [done|].
  intros y z _ (_ & edge & Hedge & _ & <-) _. by apply Htargets.
Qed.

(** When the node ids are distinct, every edge leads to a node and some
    node has type input, the execution order is a rearrangement of the node
    ids: every node is executed, and executed once. *)
Theorem order_is_permutation_of_nodes nodes edges :
  NoDup (node_id <$> nodes) ->
  (forall edge, edge ∈ edges -> edge_target edge ∈ node_id <$> nodes) ->
  has_type "input" nodes ->
  _determine_execution_order nodes edges ≡ₚ node_id <$> nodes.
Proof.
  intros Hids Htargets Hinput.
  destruct (has_type_find nodes Hinput) as (input_node & Hfind & _ & Hin).
  destruct (resolve_order_reached nodes edges input_node Hfind)
    as (reached & -> & _ & Hnd & Hreach).
  assert (forall x, x ∈ reached -> x ∈ node_id <$> nodes) as Hsub.
  { intros x Hx. apply (reachable_is_node nodes edges (node_id input_node)); [|done|].
    - by apply list_elem_of_fmap_2.
    - by apply Hreach. }
  apply NoDup_Permutation; [|done|].
  - apply NoDup_app. split; [done|]. split.
    + intros x Hx. unfold unreached. rewrite list_elem_of_fmap.
      intros (node & -> & Hnode). by apply list_elem_of_filter in Hnode as [Hnot _].
    + unfold unreached. apply (sublist_NoDup _ (node_id <$> nodes)); [exact Hids|].
      apply fmap_sublist, sublist_filter.
  - intros x. rewrite elem_of_app. split.
    + intros [Hx|Hx]; [by apply Hsub|].
      unfold unreached in Hx. apply list_elem_of_fmap in Hx as (node & -> & Hnode).
      apply list_elem_of_filter in Hnode as [_ Hnode]. by apply list_elem_of_fmap_2.
    + intros Hx. destruct (decide (x ∈ reached)) as [?|Hnot]; [by left|]. right.
      apply list_elem_of_fmap in Hx as (node & -> & Hnode).
      unfold unreached. apply list_elem_of_fmap_2. by apply list_elem_of_filter.
Qed.

Lemma order_is_permutation_of_nodes_witness :
  _determine_execution_order chain_nodes chain_edges ≡ₚ node_id <$> chain_nodes.
Proof.
  apply order_is_permutation_of_nodes.
  - apply (bool_decide_unpack _). vm_compute. exact I.
  - intros edge Hedge. apply (bool_decide_unpack _).
    apply elem_of_cons in Hedge as [->|Hedge]; [vm_compute; exact I|].
    apply elem_of_cons in Hedge as [->|Hedge]; [vm_compute; exact I|].
    apply elem_of_cons in Hedge as [->|Hedge]; [vm_compute; exact I|].
    inversion Hedge.
  - exists (mk_node "input-id" "input" (mk_data None None None (Some 5%Z))).
    split; [apply list_elem_of_here | reflexivity].
Defined.

(** ** What validation accepts *)

Lemma no_config_error_well_formed node :
  _validate_node_config node = [] -> well_formed_config node.
Proof.
  unfold _validate_node_config, well_formed_config. intros Hnone.
  destruct (decide (node_type node = LLM_ENGINE)) as [Ht|Ht].
  - split; [|intros Hkb; rewrite Hkb in Ht; discriminate].
    intros _. destruct (model (node_data node)) as [m|]; [|done].
    exists m. split; [done|]. intros ->. done.
  - split; [done|]. intros Hkb. rewrite decide_True in Hnone by done.
    apply app_eq_nil in Hnone as [Hcoll Htop]. split.
    + destruct (collection (node_data node)) as [c|]; [|done].
      exists c. split; [done|]. intros ->. done.
    + intros k Hk. rewrite Hk in Htop. destruct (decide _); [done | lia].
Qed.

Lemma config_errors_none nodes :
  config_errors nodes = [] <-> Forall well_formed_config nodes.
Proof.
  unfold config_errors. rewrite join_nil, Forall_fmap. apply Forall_iff.
  intros node. split; [apply no_config_error_well_formed | apply well_formed_config_no_error].
Qed.

Lemma count_type_pos t nodes : 0 < count_type t nodes <-> has_type t nodes.
Proof.
  unfold count_type, has_type. split.
  - intros Hpos. destruct (filter _ nodes) as [|node rest] eqn:Hf; [simpl in Hpos; lia|].
    exists node.
    assert (node ∈ filter (fun node => node_type node = t) nodes) as Hin
      by (rewrite Hf; apply list_elem_of_here).
    apply list_elem_of_filter in Hin as [? ?]. done.
  - intros (node & Hnode & Ht).
    assert (node ∈ filter (fun node => node_type node = t) nodes) as Hin
      by (by apply list_elem_of_filter).
    destruct (filter _ nodes); [by apply elem_of_nil in Hin | simpl; lia].
Qed.

Section validation_shape.
Context `{PyRuntime}.

Lemma structural_errors_none nodes :
  structural_errors nodes = []
  <-> count_type "input" nodes = 1 /\ has_type "llm" nodes
      /\ count_type "output" nodes = 1.
Proof.
  unfold structural_errors.
  assert (required_types ⊆ list_to_set (C:=gset string) (node_type <$> nodes)
          <-> has_type "input" nodes /\ has_type "llm" nodes /\ has_type "output" nodes)
    as Hreq.
  { unfold required_types, has_type, USER_QUERY, LLM_ENGINE, OUTPUT. split.
    - intros Hsub. repeat split.
      + assert ("input" ∈ list_to_set (C:=gset string) (node_type <$> nodes)) as Hin
          by (apply Hsub; set_solver).
        apply elem_of_list_to_set, list_elem_of_fmap in Hin as (node & ? & ?). by exists node.
      + assert ("llm" ∈ list_to_set (C:=gset string) (node_type <$> nodes)) as Hin
          by (apply Hsub; set_solver).
        apply elem_of_list_to_set, list_elem_of_fmap in Hin as (node & ? & ?). by exists node.
      + assert ("output" ∈ list_to_set (C:=gset string) (node_type <$> nodes)) as Hin
          by (apply Hsub; set_solver).
        apply elem_of_list_to_set, list_elem_of_fmap in Hin as (node & ? & ?). by exists node.
    - intros ((n1 & ? & ?) & (n2 & ? & ?) & (n3 & ? & ?)) t Ht.
      apply elem_of_list_to_set, list_elem_of_fmap. set_unfold in Ht.
      destruct Ht as [[->| ->]| ->]; eauto. }
  rewrite <- !count_type_pos in Hreq. unfold count_type, USER_QUERY, OUTPUT in *.
  split.
  - intros Hnone. apply app_eq_nil in Hnone as [H1 Hnone].
    apply app_eq_nil in Hnone as [H2 H3].
    destruct (decide (required_types ⊆ _)) as [Hsub|]; [|done].
    apply Hreq in Hsub as (? & ? & ?).
    destruct (decide (1 < _)); [done|]. destruct (decide (1 < _)); [done|].
    rewrite <- count_type_pos. unfold count_type. lia.
  - intros (Hin & Hllm & Hout). rewrite <- count_type_pos in Hllm. unfold count_type in Hllm.
    rewrite decide_True by (apply Hreq; lia).
    rewrite decide_False by lia. rewrite decide_False by lia. done.
Qed.

Lemma resolve_order_nonempty nodes edges :
  has_type "input" nodes -> _determine_execution_order nodes edges <> [].
Proof.
  intros Hinput. destruct (has_type_find nodes Hinput) as (input_node & Hfind & _).
  destruct (resolve_order_reached nodes edges input_node Hfind)
    as (reached & -> & Hhead & _).
  destruct reached; [done | done].
Qed.

Lemma validate_workflow_errors_nodes nodes edges :
  errors (validate_workflow nodes edges) = structural_errors nodes ++ config_errors nodes.
Proof.
  rewrite validate_workflow_errors. destruct (decide _) as [[Hs Ho]|_]; [|done].
  apply structural_errors_none in Hs as (Hin & _).
  destruct (resolve_order_nonempty nodes edges); [|done].
  apply count_type_pos. lia.
Qed.

End validation_shape.

Lemma validate_workflow_valid_iff `{PyRuntime} nodes edges :
  is_valid (validate_workflow nodes edges) = true
  <-> count_type "input" nodes = 1
      /\ count_type "output" nodes = 1
      /\ has_type "llm" nodes
      /\ Forall well_formed_config nodes.
Proof.
  rewrite validate_workflow_is_valid, validate_workflow_errors_nodes.
  rewrite <- config_errors_none. split.
  - intros [Hs Hc]%app_eq_nil. apply structural_errors_none in Hs. naive_solver.
  - intros (? & ? & ? & ->). rewrite app_nil_r. by apply structural_errors_none.
Qed.



(** The errors and the verdict of validation depend on the nodes alone, and
    the message about connections ("Invalid workflow connections - cannot
    determine execution order") is never emitted: whenever the order is
    computed there is an input node, and the order then starts with it. *)
Theorem validation_ignores_edges `{PyRuntime} nodes edges edges' :
  errors (validate_workflow nodes edges) = errors (validate_workflow nodes edges')
  /\ is_valid (validate_workflow nodes edges) = is_valid (validate_workflow nodes edges')
  /\ "Invalid workflow connections - cannot determine execution order"
       ∉ errors (validate_workflow nodes edges).
Proof.
  assert (forall es es', is_valid (validate_workflow nodes es)
                         = is_valid (validate_workflow nodes es')) as Hvalid.
  { intros es es'. apply eq_true_iff_eq.
    by rewrite !validate_workflow_valid_iff. }
  split; [by rewrite !validate_workflow_errors_nodes|]. split; [apply Hvalid|].
  rewrite validate_workflow_errors_nodes. intros Hin.
  assert (Forall (fun e => String.prefix "Invalid" e = false)
            (structural_errors nodes ++ config_errors nodes)) as Hall.
  { apply Forall_app. split.
    - unfold structural_errors. repeat destruct (decide _); simpl; repeat constructor.
    - apply Forall_forall. intros e He. unfold config_errors in He.
      apply list_elem_of_join in He as (l & He & Hl).
      apply list_elem_of_fmap in Hl as (node & -> & _).
      unfold _validate_node_config in He.
      repeat (destruct (decide _) || destruct (truthy _) || destruct (topK _));
        set_unfold in He; naive_solver. }
  rewrite Forall_forall in Hall. by specialize (Hall _ Hin).
Qed.

(** ** Runs *)

Section run_properties.
Context `{PyRuntime} `{Capabilities}.

Lemma node_map_lookup_other nodes (node_map : gmap string WorkflowNode) k :
  k ∉ node_id <$> nodes ->
  foldl (fun node_map node => <[node_id node := node]> node_map) node_map nodes !! k
  = node_map !! k.
Proof.
  revert node_map. induction nodes as [|node nodes IH]; intros node_map Hk; [done|].
  rewrite fmap_cons, not_elem_of_cons in Hk. destruct Hk as [Hne Hk].
  cbn [foldl]. rewrite IH by done. by rewrite lookup_insert_ne.
Qed.

(** With distinct ids the node map returns each node under its id. *)
Lemma make_node_map_lookup nodes node :
  NoDup (node_id <$> nodes) -> node ∈ nodes ->
  make_node_map nodes !! node_id node = Some node.
Proof.
  unfold make_node_map. generalize (∅ : gmap string WorkflowNode).
  induction nodes as [|node' nodes IH]; intros node_map Hnd Hnode.
  - by apply elem_of_nil in Hnode.
  - rewrite fmap_cons in Hnd. apply NoDup_cons in Hnd as [Hfresh Hnd].
    cbn [foldl]. apply elem_of_cons in Hnode as [->|Hnode].
    + rewrite node_map_lookup_other by done. by rewrite lookup_insert_eq.
    + by apply IH.
Qed.

Lemma execute_steps_raising_node node_map started order k :
  k ∈ order ->
  (forall w, exists e w', execute_step node_map started k w = (inl e, w')) ->
  forall w, exists e w', execute_steps node_map started order w = (inl e, w').
Proof.
  intros Hk Hraises. induction order as [|node_id order IH]; intros w.
  - by apply elem_of_nil in Hk.
  - cbn [execute_steps]. unfold mbind, M_bind.
    destruct (execute_step node_map started node_id w) as [[e|[]] w1] eqn:Hstep;
      [by eauto|].
    apply elem_of_cons in Hk as [<-|Hk]; [|by apply IH].
    destruct (Hraises w) as (e & w' & Hw). congruence.
Qed.

Lemma execute_step_llm_raises node_map started node_id node :
  node_map !! node_id = Some node -> node_type node = "llm" ->
  forall w, exists e w', execute_step node_map started node_id w = (inl e, w').
Proof.
  intros Hnode Htype w.
  destruct (_execute_llm_engine_raises node w) as [e He].
  exists e, w. apply (execute_step_component_raises _ _ _ node); [done|].
  unfold _execute_component, USER_QUERY, KNOWLEDGE_BASE, LLM_ENGINE.
  rewrite Htype. simpl. done.
Qed.

Lemma execute_workflow_steps_raise nodes edges input_data e w :
  is_valid (validate_workflow nodes edges) = true ->
  execute_steps (make_node_map nodes) (time_time 0)
    (execution_order (validate_workflow nodes edges)) (initial_world input_data)
  = (inl e, w) ->
  execute_workflow_traced nodes edges input_data = (Returned (failed_result e w), w).
Proof.
  intros Hvalid Hsteps. unfold execute_workflow_traced, execute_body.
  rewrite Hvalid. simpl. unfold mbind at 1, M_bind at 1. by rewrite Hsteps.
Qed.

Lemma llm_node_fails_the_run nodes edges input_data k node :
  is_valid (validate_workflow nodes edges) = true ->
  k ∈ execution_order (validate_workflow nodes edges) ->
  make_node_map nodes !! k = Some node -> node_type node = "llm" ->
  status_of (execute_workflow nodes edges input_data) = Some (PStr "failed").
Proof.
  intros Hvalid Hk Hnode Htype.
  destruct (execute_steps_raising_node _ (time_time 0) _ _ Hk
              (execute_step_llm_raises _ _ _ _ Hnode Htype)
              (initial_world input_data)) as (e & w & Hsteps).
  unfold execute_workflow. by rewrite (execute_workflow_steps_raise _ _ _ _ _ Hvalid Hsteps).
Qed.

Lemma valid_order nodes edges :
  is_valid (validate_workflow nodes edges) = true ->
  execution_order (validate_workflow nodes edges) = _determine_execution_order nodes edges.
Proof.
  intros Hvalid. rewrite validate_workflow_order.
  apply validate_workflow_is_valid in Hvalid.
  rewrite validate_workflow_errors_nodes in Hvalid.
  apply app_eq_nil in Hvalid as [-> _]. done.
Qed.

End run_properties.

(** A workflow whose node ids are distinct never completes: when it is
    invalid nothing runs, and when it is valid the run reaches its llm
    node, which raises.  Whatever the payload and the services, the status
    is ["failed"]. *)
Theorem distinct_ids_never_complete `{PyRuntime} `{Capabilities} nodes edges input_data :
  NoDup (node_id <$> nodes) ->
  status_of (execute_workflow nodes edges input_data) = Some (PStr "failed").
Proof.
  intros Hids. destruct (is_valid (validate_workflow nodes edges)) eqn:Hvalid.
  - pose proof Hvalid as Hshape.
    apply validate_workflow_valid_iff in Hshape as (Hin & _ & (node & Hnode & Htype) & _).
    apply (llm_node_fails_the_run _ _ _ (node_id node) node); [done| |by apply make_node_map_lookup|done].
    rewrite valid_order by done. apply resolve_order_covers; [|done].
    apply count_type_pos. lia.
  - unfold execute_workflow. by rewrite execute_workflow_invalid.
Qed.

Lemma distinct_ids_never_complete_witness :
  status_of (execute_workflow end_to_end_nodes end_to_end_edges [("query", PStr "hi")])
  = Some (PStr "failed").
Proof.
  apply distinct_ids_never_complete.
  apply (bool_decide_unpack _). vm_compute. exact I.
Defined.

Lemma _execute_user_query_raises `{PyRuntime} node w :
  truthy (dict_get_default (input_data (context w)) "query" (PStr "")) = false ->
  _execute_user_query node w = (inl (ValueError "No query provided"), w).
Proof.
  intros Hq. unfold _execute_user_query. unfold_monad. by rewrite Hq.
Qed.

(** A valid workflow with distinct node ids that is given no usable query
    (the key is missing, or its value is empty, [None], zero or another
    falsy value) fails at its first step, the input node: the error is
    ["No query provided"], the log is empty and no service is called. *)
Theorem missing_query_fails_at_input_node `{PyRuntime} `{Capabilities}
  nodes edges input_data :
  is_valid (validate_workflow nodes edges) = true ->
  NoDup (node_id <$> nodes) ->
  truthy (dict_get_default input_data "query" (PStr "")) = false ->
  execute_workflow_traced nodes edges input_data
  = (Returned
       (PDict [("error", PStr "No query provided");
               ("execution_log",
                PDict [("steps", PList []); ("total_steps", PInt 0);
                       ("error", PStr "No query provided")]);
               ("execution_time", PInt (millis (time_time 1) (time_time 0)));
               ("status", PStr "failed")]),
     initial_world input_data).
Proof.
  intros Hvalid Hids Hq.
  pose proof Hvalid as Hshape.
  apply validate_workflow_valid_iff in Hshape as (Hin & _).
  assert (has_type "input" nodes) as Hinput by (apply count_type_pos; lia).
  destruct (has_type_find nodes Hinput) as (input_node & Hfind & Htype & Hnode).
  destruct (resolve_order_reached nodes edges input_node Hfind)
    as (reached & Horder & Hhead & _).
  destruct reached as [|first reached]; [done|]. injection Hhead as ->.
  edestruct (execute_workflow_step_raises nodes edges input_data []
               (node_id input_node)) as (steps & Hsteps & _ & Hrun).
  - done.
  - rewrite valid_order by done. rewrite Horder. reflexivity.
  - reflexivity.
  - apply (execute_step_component_raises _ _ _ input_node).
    + by apply make_node_map_lookup.
    + unfold _execute_component, USER_QUERY. rewrite decide_True by done.
      by apply _execute_user_query_raises.
  - apply Forall2_nil_inv_l in Hsteps as ->. exact Hrun.
Qed.

Lemma missing_query_fails_at_input_node_witness :
  status_of (execute_workflow chain_nodes chain_edges [("session_id", PStr "s")])
  = Some (PStr "failed").
Proof.
  unfold execute_workflow.
  rewrite (missing_query_fails_at_input_node chain_nodes chain_edges).
  - reflexivity.
  - vm_compute. reflexivity.
  - apply (bool_decide_unpack _). vm_compute. exact I.
  - reflexivity.
Defined.

(** Validation does not look at whether the type of a node is one the
    dispatcher knows: a node of any other type changes neither the verdict
    nor the errors of its own check, and executing it raises
    [ValueError("Unknown component type: ...")]. *)
Theorem unknown_type_is_not_validated `{PyRuntime} `{Capabilities}
  before node after edges :
  ~ known_type (node_type node) ->
  is_valid (validate_workflow (before ++ node :: after) edges)
  = is_valid (validate_workflow (before ++ after) edges)
  /\ _validate_node_config node = []
  /\ forall w,
       _execute_component node w
       = (inl (ValueError ("Unknown component type: " +:+ node_type node)), w).
Proof.
  intros Hunknown. unfold known_type in Hunknown.
  assert (forall t, known_type t -> count_type t (before ++ node :: after)
                                    = count_type t (before ++ after)) as Hcount.
  { intros t Ht. unfold count_type. rewrite !filter_app, filter_cons_False; [done|].
    intros Heq. rewrite Heq in Hunknown. by destruct Hunknown. }
  assert (_validate_node_config node = []) as Hconfig.
  { unfold _validate_node_config, LLM_ENGINE, KNOWLEDGE_BASE.
    rewrite !decide_False; [done | intros ?; apply Hunknown; auto..]. }
  split; [|split; [done|]].
  - apply eq_true_iff_eq. rewrite !validate_workflow_valid_iff.
    rewrite <- !count_type_pos.
    rewrite !Hcount by (unfold known_type; auto).
    rewrite !Forall_app, Forall_cons.
    pose proof (no_config_error_well_formed node Hconfig). naive_solver.
  - intros w. unfold _execute_component, USER_QUERY, KNOWLEDGE_BASE, LLM_ENGINE, OUTPUT.
    rewrite !decide_False; [done | intros ?; apply Hunknown; auto..].
Qed.

Lemma unknown_type_is_not_validated_witness :
  is_valid (validate_workflow
              (end_to_end_nodes ++ [mk_node "4" "webhook" (mk_data None None None None)])
              end_to_end_edges) = true.
Proof.
  destruct (unknown_type_is_not_validated end_to_end_nodes
              (mk_node "4" "webhook" (mk_data None None None None)) [] end_to_end_edges)
    as [Hvalid _].
  - intros [Ht|[Ht|[Ht|Ht]]]; discriminate Ht.
  - rewrite Hvalid. reflexivity.
Defined.

(** ** The knowledge component *)

(** A knowledge node that has a query makes one call of the vector search,
    with that query, the node's collection (["default"] when absent or
    empty), the node's top-K (5 when absent or zero) and threshold 0.3,
    whatever threshold the node configures.  It changes nothing else in the
    state; it returns the service's results under the knowledge_base tag,
    and an exception of the service is its exception. *)
Theorem knowledge_node_search_call `{PyRuntime} `{Capabilities} node w query :
  resolved_query w query ->
  let collection_name := str_or (collection (node_data node)) "default" in
  let top_k := int_or (topK (node_data node)) 5 in
  _execute_knowledge_base node w
  = (match vector_service_search (calls w) query collection_name top_k (3 # 10)%Q with
     | inr search_results =>
         inr (PDict [("query", query);
                     ("results", PList (PDict <$> search_results));
                     ("type", PStr "knowledge_base")])
     | inl e => inl e
     end,
     {| context := context w;
        clock_reads := clock_reads w;
        calls := calls w ++ [CallSearch query collection_name top_k (3 # 10)%Q] |}).
Proof.
  intros [(d & Hd & Hq)|(Hnone & Hq & Ht)] collection_name top_k.
  - by rewrite (_execute_knowledge_base_search node w d query).
  - by rewrite (_execute_knowledge_base_search_payload node w query).
Qed.

Lemma knowledge_node_search_call_witness :
  (_execute_knowledge_base
     (mk_node "2" "knowledge"
        {| label := ""; placeholder := None; model := None; collection := None;
           topK := Some 0%Z; threshold := Some (9 # 10)%Q; format := None;
           streaming := None; use_web_search := None; webSearchResults := None |})
     (world_after_input "hi")).2
  = {| context := context (world_after_input "hi");
       clock_reads := 2;
       calls := [CallSearch (PStr "hi") "default" 5 (3 # 10)%Q] |}.
Proof.
  rewrite (knowledge_node_search_call _ (world_after_input "hi") (PStr "hi")).
  - reflexivity.
  - left. exists [("query", PStr "hi"); ("type", PStr "user_query")].
    split; [|reflexivity].
    exists [], []. split; [reflexivity|]. split; [reflexivity|].
    intros v Hv. inversion Hv.
Defined.

(** ** Completed runs *)

Lemma dict_set_keys d k v x : x ∈ (dict_set d k v).*1 <-> x = k \/ x ∈ d.*1.
Proof.
  induction d as [|[k' v'] d IH]; simpl.
  - rewrite list_elem_of_singleton. set_solver.
  - destruct (decide (k' = k)) as [->|Hne]; simpl; rewrite !elem_of_cons; [naive_solver|].
    rewrite IH. naive_solver.
Qed.

Lemma dict_set_values d k v x :
  x ∈ dict_values (dict_set d k v) -> x = v \/ x ∈ dict_values d.
Proof.
  unfold dict_values. induction d as [|[k' v'] d IH]; simpl.
  - rewrite list_elem_of_singleton. auto.
  - destruct (decide (k' = k)) as [->|Hne]; simpl; rewrite !elem_of_cons; [naive_solver|].
    intros [->|Hx]; [auto|]. destruct (IH Hx); auto.
Qed.

Section completed_runs.
Context `{PyRuntime} `{Capabilities}.

Lemma execute_step_inv node_map started node_id w w' :
  execute_step node_map started node_id w = (inr (), w') ->
  exists node result w1,
    node_map !! node_id = Some node
    /\ _execute_component node w = (inr result, w1)
    /\ w' = after_step node_id node result started w1.
Proof.
  unfold execute_step, lookup_node. unfold_monad.
  destruct (node_map !! node_id) as [node|]; [|discriminate].
  destruct (_execute_component node w) as [[e|result] w1] eqn:Hrun; [discriminate|].
  intros [= <-]. by exists node, result, w1.
Qed.

Lemma _execute_knowledge_base_tag node w result w' :
  _execute_knowledge_base node w = (inr result, w') ->
  has_type_tag "knowledge_base" result = true.
Proof.
  unfold _execute_knowledge_base, query_fallback, search. unfold_monad.
  intros Hrun. repeat (case_match; simplify_eq/=); done.
Qed.

(** A component that returns does not return an answer unless the results
    already hold one. *)
Lemma _execute_component_no_answer node w result w' :
  no_answer (dict_values (intermediate_results (context w))) ->
  _execute_component node w = (inr result, w') ->
  has_type_tag "llm_response" result = false /\ has_type_tag "output" result = false.
Proof.
  intros Hno. unfold _execute_component.
  destruct (decide _); [|destruct (decide _); [|destruct (decide _); [|destruct (decide _)]]].
  - unfold _execute_user_query. unfold_monad.
    destruct (negb _); [discriminate|]. by intros [= <- <-].
  - intros Hrun. apply _execute_knowledge_base_tag in Hrun.
    destruct result as [| | | | | |d]; try done. simpl in *.
    destruct (dict_get d "type") as [[| | | |s| |]|]; try done. simpl in *.
    apply bool_decide_eq_true in Hrun as ->. done.
  - destruct (_execute_llm_engine_raises node w) as [err ->]. discriminate.
  - rewrite _execute_output_no_response; [discriminate|].
    intros v Hv. by apply Hno.
  - discriminate.
Qed.

Lemma execute_steps_no_answer node_map started order :
  forall w w',
    no_answer (dict_values (intermediate_results (context w))) ->
    execute_steps node_map started order w = (inr (), w') ->
    no_answer (dict_values (intermediate_results (context w'))).
Proof.
  induction order as [|node_id order IH]; intros w w' Hno Hrun.
  - by injection Hrun as <-.
  - cbn [execute_steps] in Hrun. unfold mbind, M_bind in Hrun.
    destruct (execute_step node_map started node_id w) as [[e|[]] w1] eqn:Hstep;
      [discriminate|].
    apply (IH w1); [|done].
    apply execute_step_inv in Hstep as (node & result & w2 & _ & Hcomp & ->).
    pose proof (keeps__execute_component node w) as [Hctx _]. rewrite Hcomp in Hctx.
    simpl in Hctx. simpl. rewrite Hctx.
    intros v Hv. apply dict_set_values in Hv as [->|Hv]; [|by apply Hno].
    by apply (_execute_component_no_answer node w result w2).
Qed.

Lemma execute_steps_keys node_map started order :
  forall w w',
    execute_steps node_map started order w = (inr (), w') ->
    forall x, x ∈ (intermediate_results (context w')).*1
              <-> x ∈ order \/ x ∈ (intermediate_results (context w)).*1.
Proof.
  induction order as [|node_id order IH]; intros w w' Hrun x.
  - injection Hrun as <-. set_solver.
  - cbn [execute_steps] in Hrun. unfold mbind, M_bind in Hrun.
    destruct (execute_step node_map started node_id w) as [[e|[]] w1] eqn:Hstep;
      [discriminate|].
    rewrite (IH _ _ Hrun).
    apply execute_step_inv in Hstep as (node & result & w2 & _ & Hcomp & ->).
    pose proof (keeps__execute_component node w) as [Hctx _]. rewrite Hcomp in Hctx.
    simpl in Hctx. simpl. rewrite Hctx, dict_set_keys, elem_of_cons. naive_solver.
Qed.

(** What [execute_workflow] does, case by case. *)
Lemma execute_workflow_cases nodes edges input_data :
  (exists e w,
     execute_workflow_traced nodes edges input_data = (Returned (failed_result e w), w))
  \/ (exists w,
        is_valid (validate_workflow nodes edges) = true
        /\ execute_steps (make_node_map nodes) (time_time 0)
             (execution_order (validate_workflow nodes edges)) (initial_world input_data)
           = (inr (), w)
        /\ execute_workflow_traced nodes edges input_data
           = (Returned
                (PDict [("output", PDict (intermediate_results (context w)));
                        ("execution_log",
                         PDict [("steps", PList (execution_log (context w)));
                                ("total_steps",
                                 PInt (Z.of_nat (length (execution_log (context w)))));
                                ("execution_time",
                                 PInt (millis (time_time (clock_reads w)) (time_time 0)))]);
                        ("execution_time",
                         PInt (millis (time_time (clock_reads w)) (time_time 0)));
                        ("status", PStr "completed")]),
              {| context := context w; clock_reads := S (clock_reads w);
                 calls := calls w |})).
Proof.
  destruct (is_valid (validate_workflow nodes edges)) eqn:Hvalid.
  - destruct (execute_steps (make_node_map nodes) (time_time 0)
                (execution_order (validate_workflow nodes edges))
                (initial_world input_data)) as [[e|[]] w] eqn:Hsteps.
    + left. exists e, w. by apply execute_workflow_steps_raise.
    + right. exists w. split; [done|]. split; [done|].
      unfold execute_workflow_traced, execute_body. rewrite Hvalid. simpl.
      unfold mbind, M_bind. by rewrite Hsteps.
  - left. eexists _, _. unfold execute_workflow_traced, execute_body.
    rewrite Hvalid. reflexivity.
Qed.

End completed_runs.

(** When a run completes, its log has one step for every id of the
    execution order, in that order and by count, repeated ids included,
    and the output has a result under exactly the ids of the execution
    order. *)
Theorem completed_run_logs_every_step `{PyRuntime} `{Capabilities}
  nodes edges input_data :
  status_of (execute_workflow nodes edges input_data) = Some (PStr "completed") ->
  exists results steps total_time,
    execute_workflow nodes edges input_data
    = Returned
        (PDict [("output", PDict results);
                ("execution_log",
                 PDict [("steps", PList steps);
                        ("total_steps",
                         PInt (Z.of_nat
                                 (length (execution_order (validate_workflow nodes edges)))));
                        ("execution_time", PInt total_time)]);
                ("execution_time", PInt total_time);
                ("status", PStr "completed")])
    /\ Forall2 step_of (execution_order (validate_workflow nodes edges)) steps
    /\ forall x, x ∈ results.*1 <-> x ∈ execution_order (validate_workflow nodes edges).
Proof.
  intros Hstatus. unfold execute_workflow in *.
  destruct (execute_workflow_cases nodes edges input_data)
    as [(e & w & Hrun)|(w & Hvalid & Hsteps & Hrun)]; rewrite Hrun in *.
  - discriminate Hstatus.
  - destruct (execute_steps_returns _ _ _ _ _ Hsteps) as (steps & Hall & Hlog & _).
    simpl in Hlog.
    exists (intermediate_results (context w)), steps,
      (millis (time_time (clock_reads w)) (time_time 0)).
    rewrite Hlog, <- (Forall2_length _ _ _ Hall). split; [reflexivity|]. split; [done|].
    intros x. rewrite (execute_steps_keys _ _ _ _ _ Hsteps). simpl. set_solver.
Qed.

Lemma completed_run_logs_every_step_witness :
  exists (results : pydict) (steps : list pyval),
    length steps = 4
    /\ (forall x, x ∈ results.*1 <-> x ∈ ["1"; "2"; "2"; "2"])
    /\ status_of (execute_workflow completing_nodes [] [("query", PStr "hi")])
       = Some (PStr "completed").
Proof.
  destruct (completed_run_logs_every_step completing_nodes [] [("query", PStr "hi")])
    as (results & steps & total_time & Hrun & Hsteps & Hkeys).
  - vm_compute. reflexivity.
  - exists results, steps. split; [|split].
    + rewrite <- (Forall2_length _ _ _ Hsteps). vm_compute. reflexivity.
    + exact Hkeys.
    + vm_compute. reflexivity.
Defined.

(** ** The reply of the chat route *)

Lemma first_response_no_answer items ai_response :
  no_answer (dict_values items) -> first_response items ai_response = ai_response.
Proof.
  unfold dict_values. induction items as [|[node_id output] items IH]; intros Hno; [done|].
  simpl. destruct (Hno output) as [Hllm Hout]; [apply list_elem_of_here|].
  assert (first_response items ai_response = ai_response) as ->.
  { apply IH. intros v Hv. apply Hno. by apply list_elem_of_further. }
  destruct output as [| | | | | |d]; try done. simpl in Hllm, Hout. by rewrite Hllm, Hout.
Qed.

(** The chat route never replies with a generated answer.  Whatever the
    workflow, the payload and the services, the reply it builds from the
    result of [execute_workflow] is the apology or a failure report: no run
    leaves an llm_response or an output result behind. *)
Theorem chat_reply_is_never_an_answer `{PyRuntime} `{Capabilities}
  nodes edges input_data :
  exists result,
    execute_workflow nodes edges input_data = Returned (PDict result)
    /\ (ai_response result = inr (PStr "Sorry, I couldn't process your request.")
        \/ exists message,
             ai_response result = inr (PStr ("Workflow execution failed: " +:+ message))).
Proof.
  unfold execute_workflow.
  destruct (execute_workflow_cases nodes edges input_data)
    as [(e & w & ->)|(w & Hvalid & Hsteps & ->)].
  - eexists. split; [reflexivity|]. right. by exists (exn_str e).
  - eexists. split; [reflexivity|].
    unfold ai_response. cbn -[first_response].
    destruct (intermediate_results (context w)) as [|item results] eqn:Hresults.
    + right. by exists "Unknown error".
    + left. cbn -[first_response]. f_equal. apply first_response_no_answer.
      rewrite <- Hresults.
      eapply (execute_steps_no_answer _ _ _ (initial_world input_data)); [|exact Hsteps].
      intros v Hv. inversion Hv.
Qed.

(** ** Sentences and chunks *)

Example split_example :
  _split_into_sentences (codes "Hi there.  How are you?! ... Fine")
  = [codes "Hi there"; codes "How are you"; codes "Fine"].
Proof. vm_compute. reflexivity. Qed.

Lemma drop_while_split {A : Type} (f : A -> bool) (l : list A) :
  exists k, l = k ++ drop_while f l /\ Forall (fun x => f x = true) k.
Proof.
  induction l as [|x l (k & Hk & Hall)]; [by exists []|]. simpl.
  destruct (f x) eqn:Hx.
  - exists (x :: k). split; [by rewrite Hk at 1 | by constructor].
  - by exists [].
Qed.

Lemma drop_while_head {A : Type} (f : A -> bool) (l : list A) x :
  head (drop_while f l) = Some x -> f x = false.
Proof.
  induction l as [|y l IH]; [done|]. simpl. destruct (f y) eqn:Hy; [done|].
  by intros [= <-].
Qed.

Lemma drop_while_app_stop {A : Type} (f : A -> bool) (a : list A) x l :
  f x = false -> drop_while f (a ++ x :: l) = drop_while f a ++ x :: l.
Proof.
  intros Hx. induction a as [|y a IH]; simpl; [by rewrite Hx|].
  by destruct (f y).
Qed.

Lemma drop_while_all {A : Type} (f : A -> bool) (l : list A) :
  Forall (fun x => f x = true) l -> drop_while f l = [].
Proof. induction 1 as [|x l Hx _ IH]; [done|]. simpl. by rewrite Hx. Qed.

Section text_properties.
Context `{PyText}.

Lemma lstrip_split s :
  exists k, s = k ++ lstrip s /\ Forall (fun c => isspace c = true) k.
Proof. apply drop_while_split. Qed.

Lemma rstrip_split s :
  exists k, s = rstrip s ++ k /\ Forall (fun c => isspace c = true) k.
Proof.
  unfold rstrip. destruct (drop_while_split isspace (reverse s)) as (k & Hk & Hall).
  exists (reverse k). split.
  - rewrite <- reverse_app, <- Hk. by rewrite reverse_involutive.
  - by apply Forall_reverse.
Qed.

Lemma strip_split s :
  exists k1 k2,
    s = k1 ++ strip s ++ k2
    /\ Forall (fun c => isspace c = true) k1 /\ Forall (fun c => isspace c = true) k2.
Proof.
  destruct (lstrip_split s) as (k1 & H1 & Hall1).
  destruct (rstrip_split (lstrip s)) as (k2 & H2 & Hall2).
  exists k1, k2. unfold strip. by rewrite <- H2.
Qed.

Lemma strip_length s : length (strip s) <= length s.
Proof.
  destruct (strip_split s) as (k1 & k2 & Hs & _). rewrite Hs at 2.
  rewrite !length_app. lia.
Qed.

Lemma rstrip_last s c : last (rstrip s) = Some c -> isspace c = false.
Proof.
  unfold rstrip. rewrite last_reverse. apply drop_while_head.
Qed.

Lemma strip_trimmed s : strip s <> [] -> trimmed (strip s).
Proof.
  intros Hne. split; [done|]. split; [|apply rstrip_last].
  intros c Hc. unfold strip in *.
  destruct (rstrip_split (lstrip s)) as (k & Hk & _).
  apply (drop_while_head isspace s). fold (lstrip s). rewrite Hk.
  destruct (rstrip (lstrip s)); [done|]. done.
Qed.

Lemma lstrip_app_trimmed a s l :
  trimmed s -> lstrip (a ++ s ++ l) = lstrip a ++ s ++ l.
Proof.
  intros (Hne & Hhead & _). destruct s as [|c s]; [done|].
  unfold lstrip. simpl. apply drop_while_app_stop. by apply Hhead.
Qed.

Lemma rstrip_app_trimmed a s l :
  trimmed s -> rstrip (a ++ s ++ l) = a ++ s ++ rstrip l.
Proof.
  intros (Hne & _ & Hlast). unfold rstrip.
  destruct (decide (s = [])) as [|_]; [done|].
  assert (exists s' c, s = s' ++ [c]) as (s' & c & ->).
  { destruct s as [|x s] using rev_ind; [done|]. eauto. }
  assert (isspace c = false) as Hc by (apply Hlast; by rewrite last_snoc).
  rewrite !reverse_app. simpl. rewrite <- app_assoc. simpl.
  rewrite drop_while_app_stop by done.
  rewrite reverse_app. simpl. rewrite reverse_cons, !reverse_app, !reverse_involutive.
  by rewrite <- !app_assoc.
Qed.

(** Stripping keeps every trimmed piece of the text. *)
Lemma infix_of_strip s l : trimmed s -> infix_of s l -> infix_of s (strip l).
Proof.
  intros Hs (a & b & ->). unfold strip.
  rewrite lstrip_app_trimmed by done. rewrite rstrip_app_trimmed by done.
  by exists (lstrip a), (rstrip b).
Qed.

Lemma strip_nonspace s :
  filter (fun c => isspace c = false) (strip s) = filter (fun c => isspace c = false) s.
Proof.
  destruct (strip_split s) as (k1 & k2 & Hs & Hall1 & Hall2). rewrite Hs at 2.
  rewrite !filter_app.
  assert (forall k, Forall (fun c => isspace c = true) k ->
                    filter (fun c => isspace c = false) k = []) as Hnone.
  { intros k Hk. apply filter_none. intros c Hc Hf.
    rewrite Forall_forall in Hk. specialize (Hk c Hc). congruence. }
  by rewrite (Hnone k1), (Hnone k2), app_nil_r.
Qed.

End text_properties.

Lemma re_split_join text piece in_run :
  (in_run = true -> piece = []) ->
  mjoin (re_split text piece in_run)
  = piece ++ filter (fun c => is_terminator c = false) text.
Proof.
  revert piece in_run. induction text as [|c text IH]; intros piece in_run Hrun.
  - simpl. by rewrite !app_nil_r.
  - simpl. rewrite filter_cons. destruct (is_terminator c) eqn:Hc.
    + rewrite decide_False by done. destruct in_run.
      * rewrite IH by done. by rewrite Hrun.
      * simpl. by rewrite IH.
    + rewrite decide_True by done. rewrite IH by done.
      by rewrite <- app_assoc.
Qed.

Lemma re_split_no_terminator text piece in_run :
  Forall (fun c => is_terminator c = false) piece ->
  Forall (Forall (fun c => is_terminator c = false)) (re_split text piece in_run).
Proof.
  revert piece in_run. induction text as [|c text IH]; intros piece in_run Hpiece.
  - by repeat constructor.
  - simpl. destruct (is_terminator c) eqn:Hc.
    + destruct in_run; [by apply IH|]. constructor; [done|]. by apply IH.
    + apply IH. apply Forall_app. by repeat constructor.
Qed.

Lemma codes_inj s1 s2 : codes s1 = codes s2 -> s1 = s2.
Proof.
  unfold codes. intros Heq.
  assert (String.list_ascii_of_string s1 = String.list_ascii_of_string s2) as Hl.
  { revert Heq. generalize (String.list_ascii_of_string s1) as l1.
    generalize (String.list_ascii_of_string s2) as l2.
    intros l2 l1. revert l2. induction l1 as [|a l1 IH]; intros [|b l2] Heq;
      try done. simpl in Heq. injection Heq as Hab Hrest.
    f_equal; [|by apply IH].
    by rewrite <- (ascii_N_embedding a), <- (ascii_N_embedding b), Hab. }
  by rewrite <- (String.string_of_list_ascii_of_string s1),
             <- (String.string_of_list_ascii_of_string s2), Hl.
Qed.

Section sentence_properties.
Context `{PyText}.

Lemma sentences_trimmed text : Forall trimmed (_split_into_sentences text).
Proof.
  unfold _split_into_sentences. apply Forall_fmap, Forall_forall.
  intros s [Hs _]%list_elem_of_filter. by apply strip_trimmed.
Qed.

Lemma strip_no_terminator s :
  Forall (fun c => is_terminator c = false) s ->
  Forall (fun c => is_terminator c = false) (strip s).
Proof.
  destruct (strip_split s) as (k1 & k2 & Hs & _). rewrite Hs at 1.
  by intros [_ [? _]%Forall_app]%Forall_app.
Qed.

Lemma sentences_nonspace (pieces : list str) :
  filter (fun c => isspace c = false)
         (mjoin (strip <$> filter (fun s => strip s <> []) pieces))
  = filter (fun c => isspace c = false) (mjoin pieces).
Proof.
  induction pieces as [|p pieces IH]; [done|].
  rewrite filter_cons. simpl mjoin at 2. rewrite filter_app, <- IH.
  destruct (decide (strip p <> [])) as [Hp|Hp].
  - rewrite fmap_cons. simpl mjoin. by rewrite filter_app, strip_nonspace.
  - apply dec_stable in Hp. by rewrite <- (strip_nonspace p), Hp.
Qed.

End sentence_properties.

Section chunk_properties.
Context `{PyText}.

Lemma chunk_sentences_numbered filename sentences chunks current n chunks' current' n' :
  chunk_sentences filename sentences chunks current n = (chunks', current', n') ->
  exists texts,
    chunks' = chunks ++ imap (fun i text => make_chunk filename text (n + i)) texts
    /\ n' = n + length texts.
Proof.
  revert chunks current n.
  induction sentences as [|s sentences IH]; intros chunks current n Hrun.
  - injection Hrun as <- <- <-. exists []. simpl. by rewrite app_nil_r, Nat.add_0_r.
  - simpl in Hrun. destruct (_ && _).
    + apply IH in Hrun as (texts & -> & ->). exists (current :: texts). split.
      * rewrite <- app_assoc, imap_cons. simpl. rewrite Nat.add_0_r. do 2 f_equal.
        apply imap_ext. intros i x _. simpl. f_equal. lia.
      * simpl. lia.
    + by apply IH in Hrun.
Qed.

Lemma _create_chunks_numbered text filename :
  exists texts,
    _create_chunks text filename = imap (fun i text => make_chunk filename text i) texts.
Proof.
  unfold _create_chunks.
  destruct (chunk_sentences _ _ _ _ _) as [[chunks current] n] eqn:Hrun.
  apply chunk_sentences_numbered in Hrun as (texts & -> & ->). simpl.
  case_bool_decide.
  - by exists texts.
  - exists (texts ++ [current]). rewrite imap_app. simpl. by rewrite Nat.add_0_r.
Qed.

Lemma chunk_sentences_cover filename sentences chunks current n chunks' current' n' s :
  chunk_sentences filename sentences chunks current n = (chunks', current', n') ->
  Forall trimmed sentences ->
  trimmed s ->
  s ∈ sentences \/ infix_of s current
    \/ (exists c, c ∈ chunks /\ infix_of s (content c)) ->
  (exists c, c ∈ chunks' /\ infix_of s (content c)) \/ infix_of s current'.
Proof.
  intros Hrun Hall Hs. revert chunks current n Hrun.
  induction Hall as [|t sentences Ht Hall IH]; intros chunks current n Hrun Hin.
  - injection Hrun as <- <- <-.
    destruct Hin as [Hin|[Hin|Hin]]; [by apply elem_of_nil in Hin|by right|by left].
  - simpl in Hrun. destruct (_ && _); apply IH in Hrun; try done.
    + destruct Hin as [[->|Hin]%elem_of_cons|[Hin|(c & Hc & Hin)]].
      * right; left. by exists (drop (length current - 200) current ++ codes " "), [];
          rewrite app_nil_r, <- app_assoc.
      * by left.
      * right; right. exists (make_chunk filename current n). split.
        -- apply elem_of_app; right. by apply list_elem_of_singleton.
        -- simpl. by apply infix_of_strip.
      * right; right. exists c. split; [|done]. apply elem_of_app; by left.
    + destruct Hin as [[->|Hin]%elem_of_cons|[(a & b & ->)|Hin]].
      * right; left. by exists (current ++ codes " "), [];
          rewrite app_nil_r, <- app_assoc.
      * by left.
      * right; left. exists a, (b ++ codes " " ++ t). by rewrite <- !app_assoc.
      * by right; right.
Qed.

Lemma _create_chunks_cover text filename s :
  s ∈ _split_into_sentences text ->
  exists c, c ∈ _create_chunks text filename /\ infix_of s (content c).
Proof.
  intros Hin. pose proof (sentences_trimmed text) as Hall.
  assert (trimmed s) as Hs by (by rewrite Forall_forall in Hall; apply Hall).
  unfold _create_chunks.
  destruct (chunk_sentences _ _ _ _ _) as [[chunks current] n] eqn:Hrun.
  eapply (chunk_sentences_cover _ _ _ _ _ _ _ _ s) in Hrun; [|done..|by left].
  assert (infix_of s current -> strip current <> []) as Hne.
  { intros Hc%infix_of_strip; [|done]. destruct Hc as (a & b & ->).
    destruct Hs as [Hs _]. by destruct a, s. }
  destruct Hrun as [(c & Hc & Hsc)|Hsc].
  - exists c. split; [|done]. case_bool_decide; [done|]. apply elem_of_app; by left.
  - rewrite bool_decide_eq_false_2 by auto.
    exists (make_chunk filename current n). split.
    + apply elem_of_app; right. by apply list_elem_of_singleton.
    + simpl. by apply infix_of_strip.
Qed.

Lemma holds_a_sentence_strip current :
  holds_a_sentence current -> current <> [] -> strip current <> [].
Proof.
  intros [->|(s & Hs & Hin)] Hne; [done|].
  apply infix_of_strip in Hin as (a & b & ->); [|done].
  destruct Hs as [Hs _]. by destruct a, s.
Qed.

Lemma chunk_sentences_sizes filename sentences chunks current n chunks' current' n' L :
  chunk_sentences filename sentences chunks current n = (chunks', current', n') ->
  Forall trimmed sentences ->
  Forall (fun s => length s <= L) sentences ->
  let ok c := 0 < length (content c) <= chunk_size (metadata c)
              /\ chunk_size (metadata c) <= 1001 `max` (L + 201) in
  holds_a_sentence current -> length current <= 1001 `max` (L + 201) ->
  Forall ok chunks ->
  Forall ok chunks' /\ length current' <= 1001 `max` (L + 201)
  /\ holds_a_sentence current'.
Proof.
  intros Hrun Hall HL ok. revert chunks current n Hrun HL.
  induction Hall as [|t sentences Ht Hall IH]; intros chunks current n Hrun HL Hcur Hlen Hok.
  - by injection Hrun as <- <- <-.
  - apply Forall_cons in HL as [Hlt HL]. simpl in Hrun.
    destruct (_ && _) eqn:Htest; apply IH in Hrun; try done.
    + right. exists t. split; [done|].
      by exists (drop (length current - 200) current ++ codes " "), [];
        rewrite app_nil_r, <- app_assoc.
    + rewrite !length_app, length_drop. simpl. lia.
    + apply Forall_app. split; [done|]. constructor; [|done].
      apply andb_prop in Htest as [_ Hne%negb_true_iff%bool_decide_eq_false].
      unfold ok. simpl. pose proof (strip_length current).
      pose proof (holds_a_sentence_strip current Hcur Hne).
      destruct (strip current); [done|]. simpl in *. lia.
    + right. exists t. split; [done|].
      by exists (current ++ codes " "), []; rewrite app_nil_r, <- app_assoc.
    + rewrite !length_app. simpl.
      apply andb_false_iff in Htest
        as [Hle%bool_decide_eq_false|Hnil%negb_false_iff%bool_decide_eq_true].
      * lia.
      * subst current. simpl. lia.
Qed.

Lemma _create_chunks_sizes text filename L :
  Forall (fun s => length s <= L) (_split_into_sentences text) ->
  Forall (fun c => 0 < length (content c) <= chunk_size (metadata c)
                   /\ chunk_size (metadata c) <= 1001 `max` (L + 201))
         (_create_chunks text filename).
Proof.
  intros HL. unfold _create_chunks.
  destruct (chunk_sentences _ _ _ _ _) as [[chunks current] n] eqn:Hrun.
  eapply chunk_sentences_sizes in Hrun as (Hok & Hlen & Hcur);
    [|apply sentences_trimmed|exact HL|by left|simpl; lia|constructor].
  case_bool_decide as Hstrip; [done|].
  apply Forall_app. split; [done|]. constructor; [|done]. simpl.
  pose proof (strip_length current). destruct (strip current); [done|].
  simpl in *. lia.
Qed.

End chunk_properties.

Section chunk_emptiness.
Context `{PyText}.

Lemma sentences_nil_iff text :
  _split_into_sentences text = [] <-> Forall is_filler text.
Proof.
  pose proof (sentences_nonspace (re_split text [] false)) as Hjoin.
  rewrite re_split_join in Hjoin by done. simpl in Hjoin.
  fold (_split_into_sentences text) in Hjoin.
  pose proof (sentences_trimmed text) as Hall. split.
  - intros Hnil. rewrite Hnil in Hjoin. simpl in Hjoin.
    apply Forall_forall. intros c Hc. unfold is_filler.
    destruct (isspace c) eqn:Hspace; [by left|].
    destruct (is_terminator c) eqn:Hterm; [by right|].
    assert (c ∈ filter (fun c => isspace c = false)
                       (filter (fun c => is_terminator c = false) text)) as Hin
      by (apply list_elem_of_filter; split; [done|];
          apply list_elem_of_filter; by split).
    rewrite <- Hjoin in Hin. by apply elem_of_nil in Hin.
  - intros Hfill. destruct (_split_into_sentences text) as [|s rest]; [done|].
    apply Forall_cons in Hall as [(Hne & Hhead & _) _].
    destruct s as [|c s]; [done|]. specialize (Hhead c eq_refl).
    assert (c ∈ filter (fun c => isspace c = false)
                       (filter (fun c => is_terminator c = false) text)) as Hin.
    { rewrite <- Hjoin. simpl. rewrite filter_cons, decide_True by done.
      apply elem_of_cons; by left. }
    apply list_elem_of_filter in Hin as [_ [Hterm Hin]%list_elem_of_filter].
    rewrite Forall_forall in Hfill. destruct (Hfill c Hin); congruence.
Qed.

Lemma _create_chunks_nil_sentences text name :
  _create_chunks text name = [] <-> _split_into_sentences text = [].
Proof.
  split.
  - intros Hnil. destruct (_split_into_sentences text) as [|s rest] eqn:Hs; [done|].
    destruct (_create_chunks_cover text name s) as (c & Hc & _).
    { rewrite Hs. apply elem_of_cons; by left. }
    rewrite Hnil in Hc. by apply elem_of_nil in Hc.
  - intros Hnil. unfold _create_chunks. by rewrite Hnil.
Qed.

Lemma _create_chunks_nil_iff text name :
  _create_chunks text name = [] <-> Forall is_filler text.
Proof. by rewrite _create_chunks_nil_sentences, sentences_nil_iff. Qed.

End chunk_emptiness.

(** [_split_into_sentences]: every sentence is non-empty, neither starts
    nor ends with white space and holds no terminator; read in order and
    white space apart, the sentences are the text without its terminators. *)
Theorem sentences_are_the_text_without_terminators `{PyText} (text : str) :
  Forall (fun s => trimmed s /\ Forall (fun c => is_terminator c = false) s)
         (_split_into_sentences text)
  /\ filter (fun c => isspace c = false) (mjoin (_split_into_sentences text))
     = filter (fun c => isspace c = false /\ is_terminator c = false) text.
Proof.
  split.
  - apply Forall_forall. intros s Hs. split.
    + pose proof (sentences_trimmed text) as Hall.
      rewrite Forall_forall in Hall. by apply Hall.
    + unfold _split_into_sentences in Hs.
      apply list_elem_of_fmap in Hs as (p & -> & [_ Hp]%list_elem_of_filter).
      apply strip_no_terminator.
      pose proof (re_split_no_terminator text [] false (Forall_nil_2 _)) as Hall.
      rewrite Forall_forall in Hall. by apply Hall.
  - unfold _split_into_sentences. rewrite sentences_nonspace, re_split_join by done.
    simpl. by rewrite list_filter_filter.
Qed.

(** [_create_chunks]: the chunk at position [i] has chunk_id [i], the key
    [<filename>_<i>] and the file name in its metadata; the keys of the
    chunks of a document are pairwise distinct. *)
Theorem chunks_are_numbered_in_order `{PyText} (text name : str) (i : nat) (c : chunk) :
  _create_chunks text name !! i = Some c ->
  chunk_id (metadata c) = i
  /\ chunk_key c = name ++ codes "_" ++ codes (pretty i)
  /\ filename (metadata c) = name
  /\ NoDup (chunk_key <$> _create_chunks text name).
Proof.
  destruct (_create_chunks_numbered text name) as (texts & ->).
  intros (t & _ & ->)%list_lookup_imap_Some. repeat split.
  apply NoDup_alt. intros j k key.
  rewrite !list_lookup_fmap, !list_lookup_imap.
  destruct (texts !! j) as [tj|]; [|done]. destruct (texts !! k) as [tk|]; [|done].
  cbn -[codes app]. intros [= <-] [= Heq].
  apply app_inv_head, (app_inv_head (codes "_")), codes_inj in Heq.
  by apply (inj pretty) in Heq.
Qed.

Lemma chunks_are_numbered_in_order_witness :
  exists c, _create_chunks (H:=example_text) fox_text (codes "fox.txt") !! 1 = Some c
            /\ chunk_id (metadata c) = 1
            /\ chunk_key c = codes "fox.txt_1".
Proof.
  eexists. split; [vm_compute; reflexivity|].
  split; [|vm_compute; reflexivity].
  eapply (chunks_are_numbered_in_order (H:=example_text) fox_text (codes "fox.txt") 1).
  vm_compute. reflexivity.
Defined.

(** [_create_chunks]: every sentence of the text occurs, whole, in the
    content of some chunk. *)
Theorem every_sentence_is_in_a_chunk `{PyText} (text name s : str) :
  s ∈ _split_into_sentences text ->
  exists c, c ∈ _create_chunks text name /\ infix_of s (content c).
Proof. apply _create_chunks_cover. Qed.

Lemma every_sentence_is_in_a_chunk_witness :
  codes "The quick brown fox jumps over the lazy dog"
    ∈ _split_into_sentences (H:=example_text) fox_text
  /\ exists c, c ∈ _create_chunks (H:=example_text) fox_text (codes "fox.txt")
               /\ infix_of (codes "The quick brown fox jumps over the lazy dog")
                           (content c).
Proof.
  assert (codes "The quick brown fox jumps over the lazy dog"
            ∈ _split_into_sentences (H:=example_text) fox_text) as Hin.
  { apply (bool_decide_unpack _). vm_compute. exact I. }
  split; [exact Hin|].
  exact (every_sentence_is_in_a_chunk (H:=example_text) fox_text (codes "fox.txt") _ Hin).
Defined.

(** [_create_chunks] returns no chunk exactly when every character of the
    text is white space or one of [.!?]. *)
Theorem no_chunks_iff_only_filler `{PyText} (text name : str) :
  _create_chunks text name = [] <-> Forall is_filler text.
Proof. apply _create_chunks_nil_iff. Qed.

Lemma no_chunks_iff_only_filler_witness :
  _create_chunks (H:=example_text) (codes " ... ?! ") (codes "dots.txt") = [].
Proof.
  apply (no_chunks_iff_only_filler (H:=example_text)).
  apply (bool_decide_unpack _). vm_compute. exact I.
Defined.

(** [_create_chunks]: when no sentence is longer than [L], no chunk is
    longer than [max 1001 (L + 201)] characters before stripping (the
    recorded chunk_size), and the content is not empty and not longer than
    the recorded size. *)
Theorem chunk_sizes_are_bounded `{PyText} (text name : str) (L : nat) :
  Forall (fun s => length s <= L) (_split_into_sentences text) ->
  Forall (fun c => 0 < length (content c) <= chunk_size (metadata c)
                   /\ chunk_size (metadata c) <= 1001 `max` (L + 201))
         (_create_chunks text name).
Proof. apply _create_chunks_sizes. Qed.

Lemma chunk_sizes_are_bounded_witness :
  Forall (fun c => 0 < length (content c) <= chunk_size (metadata c)
                   /\ chunk_size (metadata c) <= 1001)
         (_create_chunks (H:=example_text) fox_text (codes "fox.txt")).
Proof.
  apply (chunk_sizes_are_bounded (H:=example_text) fox_text (codes "fox.txt") 43).
  apply (bool_decide_unpack _). vm_compute. exact I.
Defined.

(** [process_document]: once text extraction returns a non-empty text the
    result is a success that reports the number of chunks twice and the
    length of the text, whatever the vector store answers or raises; the
    number of chunks is zero exactly when the text is only white space and
    [.!?]. *)
Theorem process_document_reports_the_chunks `{PyRuntime} `{PyText} (store : Type)
  (_extract_text : str -> exn + str)
  (create_collection : str -> store -> (exn + bool) * store)
  (add_documents :
     str -> list str -> list chunk_metadata -> list str -> store -> (exn + bool) * store)
  (file_path name collection_name text : str) (s : store) :
  _extract_text file_path = inr text ->
  text <> [] ->
  exists n,
    (process_document store _extract_text create_collection add_documents
       file_path name collection_name s).1
    = success_result n n (length text)
    /\ n = length (_create_chunks text name)
    /\ (n = 0 <-> Forall is_filler text).
Proof.
  intros Htext Hne. exists (length (_create_chunks text name)).
  split; [|split; [done|]].
  - unfold process_document. rewrite Htext, bool_decide_eq_false_2 by done.
    by destruct (_store_embeddings _ _ _ _ _ _ _).
  - rewrite <- _create_chunks_nil_iff. apply length_zero_iff_nil.
Qed.

Lemma process_document_reports_the_chunks_witness :
  (process_document (H:=example_runtime) (H0:=example_text) unit
     (fun _ => inr fox_text) (fun _ => store_down) (fun _ _ _ _ => store_down)
     (codes "uploads/fox.txt") (codes "fox.txt") (codes "default") tt).1
  = success_result 2 2 1350.
Proof.
  destruct (process_document_reports_the_chunks (H:=example_runtime) (H0:=example_text)
              unit (fun _ => inr fox_text) (fun _ => store_down)
              (fun _ _ _ _ => store_down)
              (codes "uploads/fox.txt") (codes "fox.txt") (codes "default") fox_text tt
              eq_refl ltac:(vm_compute; discriminate))
    as (n & -> & -> & _).
  vm_compute. reflexivity.
Defined.
